(** * vncencus-backend: the report aggregation pipeline

    A shallow embedding of the aggregation and normalisation code of
    [src/routes/aiPopulation.js], [src/routes/aiInternet.js],
    [src/routes/aiUrbanRural.js] and [src/routes/chatbot.js], with the
    properties the specification states about it.

    Conventions.  JavaScript numbers are modelled in exact arithmetic:
    rationals ([Q]) where the code only adds, multiplies, divides and
    compares, reals ([R]) where it takes a fractional power.  Non-finite
    numbers ([NaN], the infinities) are modelled explicitly where the code
    reads a field it then tests with [isFinite] or by truthiness.  A field
    that may be absent is an [option]; [Array.isArray] is a constructor
    test. *)

From Stdlib Require Import String Ascii.
From Stdlib Require Import Reals.
From Stdlib Require Import List Bool Arith ZArith NArith QArith.
From Stdlib Require Import Permutation Sorted Lia Psatz.
Import ListNotations.

Set Implicit Arguments.

(* ================================================================== *)
(** * Array.prototype.sort with a comparator *)
(* ================================================================== *)

(** [Array.prototype.sort] is stable (ECMAScript 2019): with a consistent
    comparator, the result is the one arrangement of the input that is
    ordered by the comparator and keeps the input order of elements the
    comparator finds equal.  It is modelled by a stable insertion sort;
    [leb a b] stands for [comparator(a, b) <= 0]. *)
Module JsSort.
Section Sort.
Variable A : Type.
Variable leb : A -> A -> bool.

Fixpoint insert (x : A) (l : list A) : list A :=
  match l with
  | [] => [x]
  | y :: l' => if leb x y then x :: y :: l' else y :: insert x l'
  end.

Definition sort (l : list A) : list A := fold_right insert [] l.

(** Elements the comparator finds equal. *)
Definition tie (x y : A) : bool := leb x y && leb y x.

(** What it means for [s] to be the stable sorting of [l]. *)
Definition stable_sorting (l s : list A) : Prop :=
  Permutation l s /\
  StronglySorted (fun a b => leb a b = true) s /\
  forall x, filter (tie x) s = filter (tie x) l.

Hypothesis leb_total : forall a b, leb a b = true \/ leb b a = true.
Hypothesis leb_trans :
  forall a b c, leb a b = true -> leb b c = true -> leb a c = true.

Lemma insert_perm x l : Permutation (x :: l) (insert x l).
Proof.
  induction l as [|y l IH]; simpl; auto.
  destruct (leb x y); auto.
  rewrite perm_swap. now constructor.
Qed.

Lemma sort_perm l : Permutation l (sort l).
Proof.
  induction l as [|x l IH]; simpl; auto.
  rewrite <- insert_perm. now constructor.
Qed.

Lemma sort_length l : length (sort l) = length l.
Proof. symmetry. apply Permutation_length, sort_perm. Qed.

Lemma insert_sorted x l :
  StronglySorted (fun a b => leb a b = true) l ->
  StronglySorted (fun a b => leb a b = true) (insert x l).
Proof.
  induction 1 as [|y l Hs IH Hy]; simpl.
  - repeat constructor.
  - destruct (leb x y) eqn:Hxy.
    + constructor; [now constructor|].
      constructor; auto.
      rewrite Forall_forall in Hy |- *. intros z Hz. eauto.
    + constructor; auto.
      assert (Hyx : leb y x = true)
        by (destruct (leb_total x y); congruence).
      rewrite Forall_forall in Hy |- *. intros z Hz.
      apply (Permutation_in _ (Permutation_sym (insert_perm x l))) in Hz.
      destruct Hz as [<-|Hz]; auto.
Qed.

Lemma sort_sorted l : StronglySorted (fun a b => leb a b = true) (sort l).
Proof.
  induction l as [|x l IH]; simpl; [constructor|].
  now apply insert_sorted.
Qed.

Lemma tie_both z x y :
  tie z x = true -> tie z y = true -> leb x y = true.
Proof.
  unfold tie. rewrite !andb_true_iff. intros [_ Hxz] [Hzy _]. eauto.
Qed.

Lemma insert_filter_tie z x l :
  filter (tie z) (insert x l) = filter (tie z) (x :: l).
Proof.
  induction l as [|y l IH]; simpl; auto.
  destruct (leb x y) eqn:Hxy; simpl; auto.
  rewrite IH. simpl.
  destruct (tie z x) eqn:Hx, (tie z y) eqn:Hy; auto.
  pose proof (tie_both _ _ _ Hx Hy). congruence.
Qed.

Lemma sort_stable z l : filter (tie z) (sort l) = filter (tie z) l.
Proof.
  induction l as [|x l IH]; simpl; auto.
  rewrite insert_filter_tie. simpl. now rewrite IH.
Qed.

Lemma sort_stable_sorting l : stable_sorting l (sort l).
Proof.
  split; [apply sort_perm|].
  split; [apply sort_sorted|].
  intros x. apply sort_stable.
Qed.

Lemma leb_refl a : leb a a = true.
Proof. now destruct (leb_total a a). Qed.

(** Two ordered lists that agree on every class of tied elements are the
    same list: the stable sorting of a list is unique, so any stable
    sorting algorithm computes what [Array.prototype.sort] does. *)
Lemma sorted_ties_unique s1 : forall s2,
  StronglySorted (fun a b => leb a b = true) s1 ->
  StronglySorted (fun a b => leb a b = true) s2 ->
  (forall x, filter (tie x) s1 = filter (tie x) s2) ->
  s1 = s2.
Proof.
  induction s1 as [|a s1 IH]; intros s2 Hs1 Hs2 Hties.
  - destruct s2 as [|b s2]; auto.
    specialize (Hties b). simpl in Hties. unfold tie in Hties at 1.
    rewrite leb_refl in Hties. discriminate.
  - destruct s2 as [|b s2].
    + specialize (Hties a). simpl in Hties. unfold tie in Hties at 1.
      rewrite leb_refl in Hties. discriminate.
    + inversion Hs1 as [|? ? Hs1' Ha]; subst.
      inversion Hs2 as [|? ? Hs2' Hb]; subst.
      rewrite Forall_forall in Ha, Hb.
      assert (Hin_b : In b (a :: s1)).
      { assert (H : In b (filter (tie b) (a :: s1))).
        { rewrite Hties. simpl. unfold tie at 1. rewrite leb_refl.
          simpl. auto. }
        apply filter_In in H. tauto. }
      assert (Hab : leb a b = true).
      { destruct Hin_b as [->|H]; [apply leb_refl|auto]. }
      assert (Hin_a : In a (b :: s2)).
      { assert (H : In a (filter (tie a) (b :: s2))).
        { rewrite <- Hties. simpl. unfold tie at 1. rewrite leb_refl.
          simpl. auto. }
        apply filter_In in H. tauto. }
      assert (Hba : leb b a = true).
      { destruct Hin_a as [->|H]; [apply leb_refl|auto]. }
      assert (Heq : a = b).
      { pose proof (Hties a) as H. simpl in H.
        assert (Haa : tie a a = true) by (unfold tie; now rewrite leb_refl).
        assert (Htie : tie a b = true) by (unfold tie; now rewrite Hab, Hba).
        rewrite Haa, Htie in H. congruence. }
      subst b. f_equal. apply IH; auto.
      intros x. specialize (Hties x). simpl in Hties.
      destruct (tie x a); congruence.
Qed.

Lemma stable_sorting_unique l s :
  stable_sorting l s -> s = sort l.
Proof.
  intros (_ & Hsorted & Hstable).
  apply sorted_ties_unique; auto using sort_sorted.
  intros x. now rewrite Hstable, sort_stable.
Qed.
End Sort.
End JsSort.

(** [a[a.length - 1]] is the last element. *)
Lemma nth_last_index (A : Type) (l : list A) (d : A) :
  nth (length l - 1) l d = last l d.
Proof.
  destruct l as [|a l]; auto.
  destruct (exists_last (l := a :: l)) as [front [z ->]]; [discriminate|].
  rewrite last_last, length_app, app_nth2; simpl; [|lia].
  replace (length front + 1 - 1 - length front)%nat with 0%nat by lia.
  reflexivity.
Qed.

(* ================================================================== *)
(** * JavaScript values the aggregators read *)
(* ================================================================== *)

(** An argument that is expected to be an array: [undefined] (a default
    parameter value then applies), a value for which [Array.isArray] is
    false, or an array. *)
Inductive ArrayArg (A : Type) : Type :=
| ArgUndefined
| ArgNotArray
| ArgArray (items : list A).
Arguments ArgUndefined {A}.
Arguments ArgNotArray {A}.

(** [Array.isArray(arg)], after the default [arg = []] has applied. *)
Definition array_of (A : Type) (arg : ArrayArg A) : option (list A) :=
  match arg with
  | ArgUndefined => Some []
  | ArgNotArray => None
  | ArgArray items => Some items
  end.

(** A number as [Number(field)] yields it: [NaN] (the field is absent or
    not numeric), an infinity, or a finite value. *)
Module JsNum.

Inductive t : Type :=
| NaN
| PosInf
| NegInf
| Fin (q : Q).


(** [x < y]; a comparison with [NaN] is false. *)
Definition ltb (x y : t) : bool :=
  match x, y with
  | NaN, _ | _, NaN => false
  | PosInf, _ => false
  | _, NegInf => false
  | NegInf, _ => true
  | Fin _, PosInf => true
  | Fin p, Fin q => negb (Qle_bool q p)
  end.

(** [x <= y] *)
Definition leb (x y : t) : bool :=
  match x, y with
  | NaN, _ | _, NaN => false
  | NegInf, _ => true
  | _, PosInf => true
  | PosInf, _ => false
  | Fin _, NegInf => false
  | Fin p, Fin q => Qle_bool p q
  end.

(** Truthiness of a number: [NaN] and zero are falsy. *)
Definition truthy (x : t) : bool :=
  match x with
  | NaN => false
  | Fin q => negb (Qeq_bool q 0)
  | _ => true
  end.

(** [x - y] *)
Definition sub (x y : t) : t :=
  match x, y with
  | NaN, _ | _, NaN => NaN
  | PosInf, PosInf => NaN
  | NegInf, NegInf => NaN
  | PosInf, _ => PosInf
  | NegInf, _ => NegInf
  | Fin _, PosInf => NegInf
  | Fin _, NegInf => PosInf
  | Fin p, Fin q => Fin (p - q)
  end.

(** [x / n] for a count [n] of at least 1. *)
Definition div_count (x : t) (n : nat) : t :=
  match x with
  | Fin p => Fin (p / inject_Z (Z.of_nat n))
  | _ => x
  end.


End JsNum.

(** [Number(field || 0)] on a count that is a finite number or absent. *)
Definition number_or_0 (field : option Q) : Q :=
  match field with
  | Some q => q
  | None => 0
  end.

(** The sum of a list of numbers. *)
Definition sumQ (l : list Q) : Q := fold_right Qplus 0%Q l.

Lemma sumQ_app (l1 l2 : list Q) : (sumQ (l1 ++ l2) == sumQ l1 + sumQ l2)%Q.
Proof.
  induction l1 as [|x l1 IH]; simpl; [ring|]. rewrite IH. ring.
Qed.

(** JSON values: what [JSON.parse] yields and [res.json] sends. *)
Module Json.

#[local] Unset Elimination Schemes.
Inductive json : Type :=
| JNull
| JBool (b : bool)
| JNumber (q : Q)
| JString (s : string)
| JArray (elements : list json)
| JObject (fields : list (string * json)).
#[local] Set Elimination Schemes.

(** The fields of an object, in the order they were set. *)
Definition Fields : Type := list (string * json).

(** [obj[key]]; [None] is [undefined]. *)
Fixpoint get (key : string) (fields : Fields) : option json :=
  match fields with
  | [] => None
  | (k, v) :: rest => if String.eqb k key then Some v else get key rest
  end.

(** [obj[key] = value]: an existing field keeps its place, a new one goes
    last. *)
Fixpoint set (key : string) (value : json) (fields : Fields) : Fields :=
  match fields with
  | [] => [(key, value)]
  | (k, v) :: rest =>
      if String.eqb k key then (k, value) :: rest
      else (k, v) :: set key value rest
  end.

(** [v.key] on any value: only an object has fields of its own. *)
Definition member (key : string) (v : json) : option json :=
  match v with
  | JObject fields => get key fields
  | _ => None
  end.

(** Truthiness, [undefined] included. *)
Definition truthy (v : option json) : bool :=
  match v with
  | None => false
  | Some JNull => false
  | Some (JBool b) => b
  | Some (JNumber q) => negb (Qeq_bool q 0)
  | Some (JString s) => negb (String.eqb s "")
  | Some (JArray _) => true
  | Some (JObject _) => true
  end.

(** [if (!obj[key]) obj[key] = value] *)
Definition fill (key : string) (value : json) (fields : Fields) : Fields :=
  if truthy (get key fields) then fields else set key value fields.

(** [x || value] for a field [x] *)
Definition value_or (x : option json) (value : json) : json :=
  match x with
  | Some v => if truthy x then v else value
  | None => value
  end.

Lemma get_set_same key value fields :
  get key (set key value fields) = Some value.
Proof.
  induction fields as [|[k v] rest IH]; simpl.
  - now rewrite String.eqb_refl.
  - destruct (String.eqb k key) eqn:E; simpl; now rewrite E.
Qed.

Lemma get_set_other key key' value fields :
  key' <> key -> get key' (set key value fields) = get key' fields.
Proof.
  intros Hne. induction fields as [|[k v] rest IH]; simpl.
  - destruct (String.eqb_spec key key'); congruence.
  - destruct (String.eqb_spec k key) as [->|E]; simpl.
    + destruct (String.eqb_spec key key'); congruence.
    + now rewrite IH.
Qed.

Lemma get_fill_same key value fields :
  get key (fill key value fields) = Some (value_or (get key fields) value).
Proof.
  unfold fill, value_or.
  destruct (truthy (get key fields)) eqn:E.
  - destruct (get key fields); [reflexivity|discriminate].
  - rewrite get_set_same. now destruct (get key fields).
Qed.

Lemma get_fill_other key key' value fields :
  key' <> key -> get key' (fill key value fields) = get key' fields.
Proof.
  intros Hne. unfold fill.
  destruct (truthy (get key fields)); auto using get_set_other.
Qed.

End Json.

(* ================================================================== *)
(** * routes/aiPopulation.js: computeProjection *)
(* ================================================================== *)

Module AiPopulation.

(** One point of the population trend,
    [{ census_year: 2014, population: 12345 }].  The year is an integer;
    the population is a count, and may be missing. *)
Record TrendPoint : Type := {
  census_year : Z;
  population : option N
}.

Record SeriesPoint : Type := {
  year : Z;
  projected : Z
}.

Record Projection : Type := {
  base_year : Z;
  projection_years : Z;
  annual_growth_rate : R;
  projected_population : option Z;
  series : list SeriesPoint
}.

(** [Number(p.population || 0)] *)
Definition population_or_0 (p : TrendPoint) : Z :=
  match population p with
  | Some n => Z.of_N n
  | None => 0
  end.

(** The comparator [(a, b) => Number(a.census_year) - Number(b.census_year)],
    read as "a goes no later than b". *)
Definition by_census_year (a b : TrendPoint) : bool :=
  (census_year a - census_year b <=? 0)%Z.

(** [d || 1] on an integer. *)
Definition or_1 (d : Z) : Z := if (d =? 0)%Z then 1%Z else d.

(** [Math.round]: the nearest integer, halves going up. *)
Definition Math_round (x : R) : Z := Zfloor (x + / 2).

(** [Math.pow] on the arguments [computeProjection] gives it: a base that
    is not negative and an exponent that is positive. *)
Definition Math_pow (b e : R) : R :=
  if Rlt_dec 0 b then Rpower b e else 0%R.

(** The body of the [for] loop, [i] running from its current value for
    [steps] more rounds, [prev] the last projected population. *)
Fixpoint projection_loop (rate : R) (baseYear i : Z) (steps : nat) (prev : Z)
  : list SeriesPoint :=
  match steps with
  | O => []
  | S k =>
      let projected := Math_round (IZR prev * (1 + rate)) in
      {| year := baseYear + i; projected := projected |}
        :: projection_loop rate baseYear (i + 1) k projected
  end.

(** What an index outside the array reads; [computeProjection] never
    reads one. *)
Definition no_point : TrendPoint := {| census_year := 0; population := None |}.
Definition no_series_point : SeriesPoint := {| year := 0; projected := 0 |}.

Definition computeProjection (trend : ArrayArg TrendPoint) (projectionYears : Z)
  : option Projection :=
  match array_of trend with
  | None => None
  | Some pts =>
      if (length pts <? 2)%nat then None
      else
        let t := JsSort.sort by_census_year pts in
        let n := length t in
        let first := population_or_0 (nth 0 t no_point) in
        let last := population_or_0 (nth (n - 1) t no_point) in
        let yearsSpan :=
          or_1 (census_year (nth (n - 1) t no_point)
                - census_year (nth 0 t no_point)) in
        let annualGrowthRate :=
          if (0 <? first)%Z
          then (Math_pow (IZR last / IZR first) (1 / IZR yearsSpan) - 1)%R
          else 0%R in
        let baseYear := census_year (nth (n - 1) t no_point) in
        let projections :=
          projection_loop annualGrowthRate baseYear 1
                          (Z.to_nat projectionYears) last in
        let projected_population :=
          match projections with
          | [] => None
          | _ => Some (projected (nth (length projections - 1) projections
                                      no_series_point))
          end in
        Some {| base_year := baseYear;
                projection_years := projectionYears;
                annual_growth_rate := annualGrowthRate;
                projected_population := projected_population;
                series := projections |}
  end.

(** The population after [k] years of compounding at [rate] from [start],
    rounded at each step. *)
Fixpoint compounded (rate : R) (start : Z) (k : nat) : Z :=
  match k with
  | O => start
  | S k' => Math_round (IZR (compounded rate start k') * (1 + rate))
  end.

Lemma by_census_year_total a b :
  by_census_year a b = true \/ by_census_year b a = true.
Proof. unfold by_census_year. rewrite !Z.leb_le. lia. Qed.

Lemma by_census_year_trans a b c :
  by_census_year a b = true -> by_census_year b c = true ->
  by_census_year a c = true.
Proof. unfold by_census_year. rewrite !Z.leb_le. lia. Qed.

Lemma projection_loop_compounded rate baseYear steps : forall i start,
  projection_loop rate baseYear (Z.of_nat i + 1) steps
                  (compounded rate start i)
  = map (fun k => {| year := baseYear + Z.of_nat k;
                     projected := compounded rate start k |})
        (seq (S i) steps).
Proof.
  induction steps as [|steps IH]; intros i start; simpl; auto.
  f_equal.
  - f_equal. lia.
  - specialize (IH (S i) start). simpl compounded in IH.
    rewrite <- IH. f_equal. lia.
Qed.

Lemma projection_loop_series rate baseYear steps start :
  projection_loop rate baseYear 1 steps start
  = map (fun k => {| year := baseYear + Z.of_nat k;
                     projected := compounded rate start k |})
        (seq 1 steps).
Proof. exact (projection_loop_compounded rate baseYear steps 0 start). Qed.

Lemma Math_pow_positive b e : (0 < b)%R -> Math_pow b e = Rpower b e.
Proof. intros Hb. unfold Math_pow. destruct (Rlt_dec 0 b); tauto. Qed.


Lemma population_or_0_nonneg p : (0 <= population_or_0 p)%Z.
Proof. unfold population_or_0. destruct (population p); lia. Qed.


(** The end-to-end scenario of the specification: the trend
    [{2009, 90000000}, {2019, 96000000}] projected 3 years ahead. *)
Definition scenario_trend : list TrendPoint :=
  [ {| census_year := 2009; population := Some 90000000%N |};
    {| census_year := 2019; population := Some 96000000%N |} ].


(** On the scenario the rate is [(96/90)^(1/10) - 1], and the series runs
    over 2020, 2021 and 2022. *)
Lemma computeProjection_scenario_rate :
  exists p,
    computeProjection (ArgArray scenario_trend) 3 = Some p /\
    base_year p = 2019%Z /\
    annual_growth_rate p
    = (Rpower (96000000 / 90000000) (1 / 10) - 1)%R /\
    map year (series p) = [2020; 2021; 2022]%Z.
Proof.
  eexists. split; [reflexivity|].
  cbn [base_year annual_growth_rate series].
  split; [reflexivity|]. split; [|reflexivity].
  cbn. rewrite Math_pow_positive by lra. reflexivity.
Qed.


(** C8.  A trend with fewer than 2 points, a value that is not an array
    included, gives [null]: no projection object and no exception. *)
Theorem computeProjection_too_few_points (trend : ArrayArg TrendPoint) (N : Z) :
  (forall pts, trend = ArgArray pts -> (length pts < 2)%nat) ->
  computeProjection trend N = None.
Proof.
  intros H. unfold computeProjection.
  destruct trend as [| |pts]; cbn [array_of]; auto.
  specialize (H pts eq_refl).
  apply Nat.ltb_lt in H. now rewrite H.
Qed.

Lemma computeProjection_too_few_points_single :
  computeProjection
    (ArgArray [ {| census_year := 2019; population := Some 96000000%N |} ]) 5
  = None /\
  computeProjection ArgNotArray 5 = None /\
  computeProjection ArgUndefined 5 = None.
Proof.
  split; [|split]; apply computeProjection_too_few_points; intros pts Hpts;
    try discriminate.
  injection Hpts as <-. simpl. lia.
Defined.

End AiPopulation.

(* ================================================================== *)
(** * routes/aiInternet.js: aggregateInternetAccess, summarizeTrend *)
(* ================================================================== *)

Module AiInternet.
Local Open Scope Q_scope.

(** ** aggregateInternetAccess *)

(** An input row,
    [{ province_code, province_name, household_count,
       households_with_internet, internet_rate_pct }].
    [internet_rate_pct] is the field as [Number(r.internet_rate_pct)]
    reads it. *)
Record AccessRow : Type := {
  province_code : option string;
  province_name : option string;
  household_count : option Q;
  households_with_internet : option Q;
  internet_rate_pct : JsNum.t
}.

(** A row of the result, all numbers settled. *)
Record RatedRow : Type := {
  rated_province_code : option string;
  rated_province_name : option string;
  rated_household_count : Q;
  rated_households_with_internet : Q;
  rated_internet_rate_pct : Q
}.

Record Totals : Type := {
  households : Q;
  total_households_with_internet : Q;
  total_internet_rate_pct : Q
}.

Record Aggregate : Type := {
  totals : Totals;
  rows : list RatedRow;
  top5 : list RatedRow;
  bottom5 : list RatedRow
}.

(** [hh ? (withNet / hh) * 100 : 0] *)
Definition derived_rate (hh withNet : Q) : Q :=
  if Qeq_bool hh 0 then 0 else (withNet / hh) * 100.

(** The rate a row is given:
    [let rate = Number(r.internet_rate_pct);
     if (!isFinite(rate) || rate <= 0) rate = hh ? (withNet / hh) * 100 : 0;]
    A rate that is not finite takes the first disjunct, a finite one is
    compared with 0. *)
Definition row_rate (supplied : JsNum.t) (hh withNet : Q) : Q :=
  match supplied with
  | JsNum.Fin q => if Qle_bool q 0 then derived_rate hh withNet else q
  | _ => derived_rate hh withNet
  end.

(** The callback of [rows.map]; it also adds to the running totals
    [totalHH] and [totalWithNet], the state threaded here. *)
Definition rate_row (st : Q * Q) (r : AccessRow) : (Q * Q) * RatedRow :=
  let '(totalHH, totalWithNet) := st in
  let hh := number_or_0 (household_count r) in
  let withNet := number_or_0 (households_with_internet r) in
  let rate := row_rate (internet_rate_pct r) hh withNet in
  ((totalHH + hh, totalWithNet + withNet),
   {| rated_province_code := province_code r;
      rated_province_name := province_name r;
      rated_household_count := hh;
      rated_households_with_internet := withNet;
      rated_internet_rate_pct := rate |}).

(** [rows.map(callback)], left to right. *)
Fixpoint map_rows (st : Q * Q) (rs : list AccessRow)
  : (Q * Q) * list RatedRow :=
  match rs with
  | [] => (st, [])
  | r :: rs' =>
      let '(st1, o) := rate_row st r in
      let '(st2, os) := map_rows st1 rs' in
      (st2, o :: os)
  end.

(** [(a, b) => b.internet_rate_pct - a.internet_rate_pct], as
    "a goes no later than b". *)
Definition by_rate_desc (a b : RatedRow) : bool :=
  Qle_bool (rated_internet_rate_pct b - rated_internet_rate_pct a) 0.

(** [(a, b) => a.internet_rate_pct - b.internet_rate_pct] *)
Definition by_rate_asc (a b : RatedRow) : bool :=
  Qle_bool (rated_internet_rate_pct a - rated_internet_rate_pct b) 0.

Definition aggregateInternetAccess (input : list AccessRow) : Aggregate :=
  let '((totalHH, totalWithNet), withRate) := map_rows (0, 0) input in
  let sortedByRateDesc := JsSort.sort by_rate_desc withRate in
  let sortedByRateAsc := JsSort.sort by_rate_asc withRate in
  let overallRate :=
    if Qeq_bool totalHH 0 then 0 else (totalWithNet / totalHH) * 100 in
  {| totals := {| households := totalHH;
                  total_households_with_internet := totalWithNet;
                  total_internet_rate_pct := overallRate |};
     rows := withRate;
     top5 := firstn 5 sortedByRateDesc;
     bottom5 := firstn 5 sortedByRateAsc |}.

(** ** summarizeTrend *)

(** A trend row,
    [{ census_year, household_count, households_with_internet,
       internet_rate_pct }]. *)
Record TrendRow : Type := {
  census_year : Z;
  trend_household_count : option Q;
  trend_households_with_internet : option Q;
  trend_internet_rate_pct : JsNum.t
}.

Record TrendSummary : Type := {
  first_year : Z;
  last_year : Z;
  first_rate : JsNum.t;
  last_rate : JsNum.t;
  change : JsNum.t;
  avg_change_per_year : JsNum.t;
  direction : string
}.

(** The direction labels. *)
Definition strong_increase : string := "tăng mạnh".
Definition mild_increase : string := "tăng nhẹ".
Definition strong_decrease : string := "giảm mạnh".
Definition mild_decrease : string := "giảm nhẹ".
Definition stable : string := "ổn định".

(** [Number(p.internet_rate_pct) ||
     (p.household_count
        ? (100 * Number(p.households_with_internet || 0))
            / Number(p.household_count)
        : 0)] *)
Definition point_rate (p : TrendRow) : JsNum.t :=
  if JsNum.truthy (trend_internet_rate_pct p)
  then trend_internet_rate_pct p
  else
    match trend_household_count p with
    | Some hh =>
        if Qeq_bool hh 0 then JsNum.Fin 0
        else JsNum.Fin
               ((100 * number_or_0 (trend_households_with_internet p)) / hh)
    | None => JsNum.Fin 0
    end.

(** The [if / else if] chain on [delta]. *)
Definition classify (delta : JsNum.t) : string :=
  if JsNum.ltb (JsNum.Fin 5) delta then strong_increase
  else if JsNum.ltb (JsNum.Fin 1) delta then mild_increase
  else if JsNum.ltb delta (JsNum.Fin (-5)) then strong_decrease
  else if JsNum.ltb delta (JsNum.Fin (-1)) then mild_decrease
  else stable.

Definition by_census_year (a b : TrendRow) : bool :=
  (census_year a - census_year b <=? 0)%Z.

Definition no_row : TrendRow :=
  {| census_year := 0; trend_household_count := None;
     trend_households_with_internet := None;
     trend_internet_rate_pct := JsNum.NaN |}.

Definition summarizeTrend (trend : ArrayArg TrendRow) : option TrendSummary :=
  match array_of trend with
  | None => None
  | Some pts =>
      if (length pts <? 2)%nat then None
      else
        let sorted := JsSort.sort by_census_year pts in
        let first := nth 0 sorted no_row in
        let last := nth (length sorted - 1) sorted no_row in
        let firstRate := point_rate first in
        let lastRate := point_rate last in
        let delta := JsNum.sub lastRate firstRate in
        let years :=
          if (1 <? length sorted)%nat then (length sorted - 1)%nat
          else 1%nat in
        let avgPerYear := JsNum.div_count delta years in
        Some {| first_year := census_year first;
                last_year := census_year last;
                first_rate := firstRate;
                last_rate := lastRate;
                change := delta;
                avg_change_per_year := avgPerYear;
                direction := classify delta |}
  end.

(** ** Properties of aggregateInternetAccess *)

Definition hh_of (r : AccessRow) : Q := number_or_0 (household_count r).
Definition withNet_of (r : AccessRow) : Q :=
  number_or_0 (households_with_internet r).


Lemma map_rows_rows rs : forall st,
  snd (map_rows st rs) = map (fun r => snd (rate_row (0, 0) r)) rs.
Proof.
  induction rs as [|r rs IH]; intros [a b]; simpl; auto.
  specialize (IH (a + hh_of r, b + withNet_of r)).
  unfold hh_of, withNet_of in IH.
  destruct (map_rows _ rs) as [st2 os]. simpl in *. now rewrite IH.
Qed.

Lemma map_rows_totals rs : forall st,
  fst (fst (map_rows st rs)) == fst st + sumQ (map hh_of rs) /\
  snd (fst (map_rows st rs)) == snd st + sumQ (map withNet_of rs).
Proof.
  induction rs as [|r rs IH]; intros [a b]; simpl.
  - split; ring.
  - specialize (IH (a + hh_of r, b + withNet_of r)).
    unfold hh_of, withNet_of in IH |- *.
    destruct (map_rows _ rs) as [[h w] os]. simpl in *.
    destruct IH as [-> ->]. split; ring.
Qed.

Lemma by_rate_desc_le a b :
  by_rate_desc a b = true <->
  rated_internet_rate_pct b <= rated_internet_rate_pct a.
Proof. unfold by_rate_desc. rewrite Qle_bool_iff. split; intro; lra. Qed.

Lemma by_rate_asc_le a b :
  by_rate_asc a b = true <->
  rated_internet_rate_pct a <= rated_internet_rate_pct b.
Proof. unfold by_rate_asc. rewrite Qle_bool_iff. split; intro; lra. Qed.

Lemma by_rate_desc_total a b :
  by_rate_desc a b = true \/ by_rate_desc b a = true.
Proof. rewrite !by_rate_desc_le. lra. Qed.

Lemma by_rate_desc_trans a b c :
  by_rate_desc a b = true -> by_rate_desc b c = true ->
  by_rate_desc a c = true.
Proof. rewrite !by_rate_desc_le. lra. Qed.

Lemma by_rate_asc_total a b :
  by_rate_asc a b = true \/ by_rate_asc b a = true.
Proof. rewrite !by_rate_asc_le. lra. Qed.

Lemma by_rate_asc_trans a b c :
  by_rate_asc a b = true -> by_rate_asc b c = true ->
  by_rate_asc a c = true.
Proof. rewrite !by_rate_asc_le. lra. Qed.








(** The scenario of the specification: two rows, 100 households of which
    40 are connected and 50 of which 45 are. *)
Definition scenario_rows : list AccessRow :=
  [ {| province_code := Some "01"%string; province_name := None;
       household_count := Some 100; households_with_internet := Some 40;
       internet_rate_pct := JsNum.NaN |};
    {| province_code := Some "79"%string; province_name := None;
       household_count := Some 50; households_with_internet := Some 45;
       internet_rate_pct := JsNum.NaN |} ].


(** On the scenario the overall rate (56.67) is not the mean of the two
    row rates (40 and 90, mean 65), and the rows are ranked by rate. *)
Lemma aggregateInternetAccess_overall_not_mean :
  let agg := aggregateInternetAccess scenario_rows in
  let mean := sumQ (map rated_internet_rate_pct (rows agg)) / 2 in
  total_internet_rate_pct (totals agg) == 170 / 3 /\
  mean == 65 /\
  ~ total_internet_rate_pct (totals agg) == mean /\
  map rated_province_code (top5 agg) = [Some "79"; Some "01"]%string /\
  map rated_province_code (bottom5 agg) = [Some "01"; Some "79"]%string.
Proof.
  cbv zeta. repeat split; try (vm_compute; reflexivity).
  vm_compute. discriminate.
Qed.

(** Rows of equal rate keep their input order in both rankings. *)
Lemma aggregateInternetAccess_ties_keep_order :
  let row code rate :=
    {| province_code := Some code; province_name := None;
       household_count := Some 10; households_with_internet := Some 5;
       internet_rate_pct := JsNum.Fin rate |} in
  let agg := aggregateInternetAccess
               [row "A" 50; row "B" 70; row "C" 50; row "D" 70]%string in
  map rated_province_code (top5 agg)
  = [Some "B"; Some "D"; Some "A"; Some "C"]%string /\
  map rated_province_code (bottom5 agg)
  = [Some "A"; Some "C"; Some "B"; Some "D"]%string.
Proof. cbv zeta. split; vm_compute; reflexivity. Qed.

(** ** Properties of summarizeTrend *)

Lemma trend_by_census_year_total a b :
  by_census_year a b = true \/ by_census_year b a = true.
Proof. unfold by_census_year. rewrite !Z.leb_le. lia. Qed.

Lemma trend_by_census_year_trans a b c :
  by_census_year a b = true -> by_census_year b c = true ->
  by_census_year a c = true.
Proof. unfold by_census_year. rewrite !Z.leb_le. lia. Qed.

Lemma Qle_bool_false x y : Qle_bool x y = false -> y < x.
Proof.
  intros H. apply Qnot_le_lt. intros Hle.
  apply Qle_bool_iff in Hle. congruence.
Qed.





(** The classification examples of the specification, on two-point trends
    whose rates differ by 6, 2, 0 and -6. *)
Definition trend_from_to (r0 r1 : Q) : list TrendRow :=
  [ {| census_year := 2024; trend_household_count := None;
       trend_households_with_internet := None;
       trend_internet_rate_pct := JsNum.Fin r1 |};
    {| census_year := 2019; trend_household_count := None;
       trend_households_with_internet := None;
       trend_internet_rate_pct := JsNum.Fin r0 |} ].

Lemma summarizeTrend_examples :
  option_map direction (summarizeTrend (ArgArray (trend_from_to 50 56)))
  = Some strong_increase /\
  option_map direction (summarizeTrend (ArgArray (trend_from_to 50 52)))
  = Some mild_increase /\
  option_map direction (summarizeTrend (ArgArray (trend_from_to 50 50)))
  = Some stable /\
  option_map direction (summarizeTrend (ArgArray (trend_from_to 50 44)))
  = Some strong_decrease /\
  option_map direction (summarizeTrend (ArgArray (trend_from_to 50 47)))
  = Some mild_decrease.
Proof. repeat split; vm_compute; reflexivity. Qed.


End AiInternet.

(* ================================================================== *)
(** * routes/aiUrbanRural.js: aggregateUrbanRural *)
(* ================================================================== *)

Module AiUrbanRural.
Local Open Scope Q_scope.

(** An input row, [{ area_type, population, household_count, ... }]. *)
Record Row : Type := {
  area_type : option string;
  population : option Q;
  household_count : option Q
}.

(** An entry of the [groups] object. *)
Record Group : Type := {
  group_area_type : string;
  group_population : Q;
  group_household_count : Q
}.

Record Item : Type := {
  item_area_type : string;
  item_population : Q;
  item_household_count : Q;
  population_percent : Q;
  household_percent : Q
}.

Record Totals : Type := {
  total_population : Q;
  total_households : Q
}.

Record Aggregate : Type := {
  totals : Totals;
  items : list Item
}.

(** [row.area_type || 'Khác']: an absent or empty area type falls in the
    group of the others. *)
Definition key_of (row : Row) : string :=
  match area_type row with
  | Some s => if String.eqb s "" then "Khác"%string else s
  | None => "Khác"%string
  end.

Definition pop_of (row : Row) : Q := number_or_0 (population row).
Definition hh_of (row : Row) : Q := number_or_0 (household_count row).

(** The [groups] object is a map from area type to group, kept here as the
    list of its entries in the order they were created, which is the
    order [Object.values] lists them in for keys that are not array
    indices; nothing below depends on that order.  Area types are taken
    not to be names that an empty object already answers to
    ([constructor], [toString], ...). *)
Definition Groups : Type := list Group.

(** [groups[key]] is set. *)
Definition has_group (key : string) (groups : Groups) : bool :=
  existsb (fun g => String.eqb (group_area_type g) key) groups.

(** [groups[key].population += pop; groups[key].household_count += hh] *)
Definition add_to_group (key : string) (pop hh : Q) (groups : Groups)
  : Groups :=
  map (fun g =>
         if String.eqb (group_area_type g) key
         then {| group_area_type := group_area_type g;
                 group_population := group_population g + pop;
                 group_household_count := group_household_count g + hh |}
         else g)
      groups.

(** The body of [for (const row of rows)], on the state
    [(groups, totalPop, totalHH)]. *)
Definition add_row (st : Groups * Q * Q) (row : Row) : Groups * Q * Q :=
  let '(groups, totalPop, totalHH) := st in
  let key := key_of row in
  let pop := pop_of row in
  let hh := hh_of row in
  let groups1 :=
    if has_group key groups then groups
    else groups ++ [ {| group_area_type := key;
                        group_population := 0;
                        group_household_count := 0 |} ] in
  (add_to_group key pop hh groups1, totalPop + pop, totalHH + hh).

Definition aggregateUrbanRural (rows : list Row) : Aggregate :=
  let '(groups, totalPop, totalHH) := fold_left add_row rows ([], 0, 0) in
  let items :=
    map (fun g =>
           {| item_area_type := group_area_type g;
              item_population := group_population g;
              item_household_count := group_household_count g;
              population_percent :=
                if Qeq_bool totalPop 0 then 0
                else (group_population g / totalPop) * 100;
              household_percent :=
                if Qeq_bool totalHH 0 then 0
                else (group_household_count g / totalHH) * 100 |})
        groups in
  {| totals := {| total_population := totalPop;
                  total_households := totalHH |};
     items := items |}.

(** ** The loop invariant *)

Definition keys (groups : Groups) : list string :=
  map group_area_type groups.

(** The rows that fall in the group [key]. *)
Definition rows_of (key : string) (rows : list Row) : list Row :=
  filter (fun r => String.eqb (key_of r) key) rows.

(** The group [g] holds the sums over the rows of its area type. *)
Definition group_sums (done : list Row) (g : Group) : Prop :=
  group_population g
  == sumQ (map pop_of (rows_of (group_area_type g) done)) /\
  group_household_count g
  == sumQ (map hh_of (rows_of (group_area_type g) done)).

(** What holds of the state once the rows [done] have been added. *)
Definition invariant (done : list Row) (st : Groups * Q * Q) : Prop :=
  let '(groups, totalPop, totalHH) := st in
  NoDup (keys groups) /\
  (forall r, In r done -> In (key_of r) (keys groups)) /\
  Forall (group_sums done) groups /\
  totalPop == sumQ (map pop_of done) /\
  totalHH == sumQ (map hh_of done) /\
  sumQ (map group_population groups) == totalPop.

Lemma has_group_In key groups :
  has_group key groups = true <-> In key (keys groups).
Proof.
  unfold has_group, keys. rewrite existsb_exists, in_map_iff.
  split; intros [g [H1 H2]]; exists g.
  - apply String.eqb_eq in H2. tauto.
  - rewrite String.eqb_eq. tauto.
Qed.

Lemma keys_add_to_group key pop hh groups :
  keys (add_to_group key pop hh groups) = keys groups.
Proof.
  unfold keys, add_to_group. rewrite map_map. apply map_ext.
  intros g. now destruct (String.eqb _ _).
Qed.

Lemma add_to_group_absent key pop hh groups :
  ~ In key (keys groups) -> add_to_group key pop hh groups = groups.
Proof.
  induction groups as [|g gs IH]; simpl; intros Hn; auto.
  destruct (String.eqb_spec (group_area_type g) key) as [E|E]; [tauto|].
  rewrite IH; tauto.
Qed.

Lemma sum_add_to_group key pop hh groups :
  NoDup (keys groups) -> In key (keys groups) ->
  sumQ (map group_population (add_to_group key pop hh groups))
  == sumQ (map group_population groups) + pop.
Proof.
  induction groups as [|g gs IH]; simpl; intros Hnd Hin; [tauto|].
  inversion Hnd as [|k ks Hk Hks]; subst.
  destruct (String.eqb_spec (group_area_type g) key) as [E|E]; simpl.
  - rewrite add_to_group_absent by (now rewrite <- E). ring.
  - rewrite IH by tauto. ring.
Qed.

Lemma rows_of_snoc key done r :
  rows_of key (done ++ [r])
  = rows_of key done ++ (if String.eqb (key_of r) key then [r] else []).
Proof. unfold rows_of. now rewrite filter_app. Qed.

Lemma rows_of_absent key done :
  (forall r, In r done -> key_of r <> key) -> rows_of key done = [].
Proof.
  induction done as [|r rs IH]; simpl; intros H; auto.
  destruct (String.eqb_spec (key_of r) key) as [E|E].
  - exfalso. apply (H r); auto.
  - apply IH. intros r' Hr'. apply H. auto.
Qed.

Lemma group_sums_add done r g :
  group_sums done g ->
  group_sums (done ++ [r])
    (if String.eqb (group_area_type g) (key_of r)
     then {| group_area_type := group_area_type g;
             group_population := group_population g + pop_of r;
             group_household_count := group_household_count g + hh_of r |}
     else g).
Proof.
  unfold group_sums. intros [Hp Hh].
  destruct (String.eqb_spec (group_area_type g) (key_of r)) as [E|E]; simpl;
    rewrite !rows_of_snoc.
  - rewrite E, String.eqb_refl, !map_app, !sumQ_app. simpl.
    rewrite <- E, <- Hp, <- Hh. split; ring.
  - destruct (String.eqb_spec (key_of r) (group_area_type g)) as [E'|E'];
      [congruence|].
    rewrite !app_nil_r. tauto.
Qed.

Lemma invariant_add_row done st r :
  invariant done st -> invariant (done ++ [r]) (add_row st r).
Proof.
  destruct st as [[groups totalPop] totalHH]. unfold invariant, add_row.
  intros (Hnd & Hin & Hsums & Hpop & Hhh & Hsum).
  set (key := key_of r).
  set (groups1 := if has_group key groups then groups else groups ++ _).
  assert (H1 : NoDup (keys groups1) /\ In key (keys groups1) /\
               (forall r', In r' done -> In (key_of r') (keys groups1)) /\
               Forall (group_sums done) groups1 /\
               sumQ (map group_population groups1) == totalPop).
  { subst groups1. destruct (has_group key groups) eqn:Hhas.
    - apply has_group_In in Hhas. tauto.
    - assert (Hno : ~ In key (keys groups)).
      { intros H. apply has_group_In in H. congruence. }
      unfold keys in *. rewrite !map_app. simpl.
      split; [|split; [|split; [|split]]].
      + apply NoDup_app; auto.
        * repeat constructor. simpl. tauto.
        * intros k Hk [<-|[]]. tauto.
      + apply in_or_app. simpl. auto.
      + intros r' Hr'. apply in_or_app. auto.
      + apply Forall_app. split; auto.
        constructor; [|constructor].
        unfold group_sums. simpl. rewrite rows_of_absent; [simpl; split; reflexivity|].
        intros r' Hr' E. apply Hno. rewrite <- E. auto.
      + rewrite sumQ_app. simpl. rewrite Hsum. ring. }
  destruct H1 as (Hnd1 & Hkey1 & Hin1 & Hsums1 & Hsum1).
  rewrite keys_add_to_group.
  split; [exact Hnd1|]. split; [|split; [|split; [|split]]].
  - intros r' Hr'. apply in_app_or in Hr'. destruct Hr' as [Hr'|[<-|[]]]; auto.
  - unfold add_to_group. rewrite Forall_map.
    revert Hsums1. apply Forall_impl. intros g. apply group_sums_add.
  - rewrite map_app, sumQ_app. simpl. rewrite Hpop. ring.
  - rewrite map_app, sumQ_app. simpl. rewrite Hhh. ring.
  - rewrite sum_add_to_group by assumption. rewrite Hsum1. reflexivity.
Qed.

Lemma invariant_fold rows : forall done st,
  invariant done st -> invariant (done ++ rows) (fold_left add_row rows st).
Proof.
  induction rows as [|r rows IH]; intros done st H; simpl.
  - now rewrite app_nil_r.
  - replace (done ++ r :: rows) with ((done ++ [r]) ++ rows)
      by (now rewrite <- app_assoc).
    apply IH. now apply invariant_add_row.
Qed.

Lemma invariant_loop rows :
  invariant rows (fold_left add_row rows ([], 0, 0)).
Proof.
  apply (invariant_fold rows [] ([], 0, 0)).
  simpl. repeat split; try reflexivity; try constructor. intros r [].
Qed.






(** Three rows in two areas, one row without an area type. *)
Definition sample_rows : list Row :=
  [ {| area_type := Some "Đô thị"%string; population := Some 300;
       household_count := Some 100 |};
    {| area_type := Some "Nông thôn"%string; population := Some 500;
       household_count := Some 120 |};
    {| area_type := Some "Đô thị"%string; population := Some 100;
       household_count := Some 30 |};
    {| area_type := None; population := Some 100;
       household_count := None |} ].


(** With a total population of 0 every share is 0. *)
Lemma aggregateUrbanRural_empty_population :
  map population_percent
      (items (aggregateUrbanRural
                [ {| area_type := Some "Đô thị"%string; population := None;
                     household_count := Some 10 |};
                  {| area_type := Some "Nông thôn"%string;
                     population := Some 0; household_count := Some 5 |} ]))
  = [0; 0].
Proof. vm_compute. reflexivity. Qed.

End AiUrbanRural.

(* ================================================================== *)
(** * routes/chatbot.js: detectYear *)
(* ================================================================== *)

Module Chatbot.
Local Open Scope Z_scope.

(** [\d] *)
Definition is_digit (c : ascii) : bool :=
  ((48 <=? nat_of_ascii c) && (nat_of_ascii c <=? 57))%nat.

Definition digit_value (c : ascii) : Z := Z.of_nat (nat_of_ascii c) - 48.

(** The regular expression [/20\d{2}/] matches at the start of [s]; the
    result is [Number] of the matched text. *)
Definition year_here (s : string) : option Z :=
  match s with
  | String c1 (String c2 (String c3 (String c4 _))) =>
      if Ascii.eqb c1 "2" && Ascii.eqb c2 "0" && is_digit c3 && is_digit c4
      then Some (2000 + 10 * digit_value c3 + digit_value c4)
      else None
  | _ => None
  end.

(** [String(text).match(/20\d{2}/)]: the leftmost match. *)
Fixpoint first_match (s : string) : option Z :=
  match s with
  | EmptyString => None
  | String _ s' =>
      match year_here s with
      | Some y => Some y
      | None => first_match s'
      end
  end.

Definition detectYear (text : string) (defaultYear : Z) : Z :=
  let y :=
    match first_match text with
    | Some m => m
    | None => defaultYear
    end in
  if (y <? 2000) || (2100 <? y) then defaultYear else y.

(** ** The year written at a position *)

(** The characters at offsets [i .. i+3] of [s] read [20dd] with [dd] two
    digits: the year they denote. *)
Definition year_at (s : string) (i : nat) : option Z :=
  match String.get i s, String.get (i + 1) s,
        String.get (i + 2) s, String.get (i + 3) s with
  | Some c1, Some c2, Some c3, Some c4 =>
      if Ascii.eqb c1 "2" && Ascii.eqb c2 "0" && is_digit c3 && is_digit c4
      then Some (2000 + 10 * digit_value c3 + digit_value c4)
      else None
  | _, _, _, _ => None
  end.

Lemma year_at_0 s : year_at s 0 = year_here s.
Proof.
  unfold year_at, year_here.
  destruct s as [|c1 [|c2 [|c3 [|c4 s]]]]; reflexivity.
Qed.

Lemma year_at_S c s i : year_at (String c s) (S i) = year_at s i.
Proof. reflexivity. Qed.

Lemma year_at_empty i : year_at EmptyString i = None.
Proof. unfold year_at. now destruct i. Qed.

Lemma digit_value_range c : is_digit c = true -> 0 <= digit_value c <= 9.
Proof.
  unfold is_digit, digit_value. rewrite andb_true_iff.
  intros [H1 H2]. apply Nat.leb_le in H1, H2.
  lia.
Qed.

Lemma year_here_range s y : year_here s = Some y -> 2000 <= y <= 2099.
Proof.
  unfold year_here.
  destruct s as [|c1 [|c2 [|c3 [|c4 s]]]]; try discriminate.
  destruct (Ascii.eqb c1 "2" && Ascii.eqb c2 "0" && is_digit c3
            && is_digit c4) eqn:E; [|discriminate].
  intros Hy.
  assert (Ey : y = 2000 + 10 * digit_value c3 + digit_value c4)
    by congruence.
  rewrite !andb_true_iff in E. destruct E as [[_ H3] H4].
  apply digit_value_range in H3, H4. lia.
Qed.

(** The leftmost match is the year at the least position that holds one. *)
Lemma first_match_spec s :
  match first_match s with
  | Some y =>
      exists i, year_at s i = Some y /\
                forall j, (j < i)%nat -> year_at s j = None
  | None => forall i, year_at s i = None
  end.
Proof.
  induction s as [|c s IH]; cbn [first_match].
  - exact year_at_empty.
  - destruct (year_here (String c s)) as [y|] eqn:E.
    + exists 0%nat. rewrite year_at_0. split; [exact E|]. intros j Hj. lia.
    + destruct (first_match s) as [y|].
      * destruct IH as [i [Hi Hmin]]. exists (S i).
        rewrite year_at_S. split; [exact Hi|].
        intros [|j] Hj; [now rewrite year_at_0|].
        rewrite year_at_S. apply Hmin. lia.
      * intros [|i]; [now rewrite year_at_0|].
        rewrite year_at_S. apply IH.
Qed.

Lemma first_match_range s y : first_match s = Some y -> 2000 <= y <= 2099.
Proof.
  induction s as [|c s IH]; cbn [first_match]; [discriminate|].
  destruct (year_here (String c s)) as [y'|] eqn:E.
  - intros Hy. apply (year_here_range (String c s)). congruence.
  - exact IH.
Qed.

(** C9 (as amended).  [detectYear] returns the year written by the
    leftmost occurrence in the text of [20] followed by two decimal
    digits, a year between 2000 and 2099, wherever that occurrence stands;
    it returns the default year when the text has no such occurrence. *)
Theorem detectYear_leftmost_20xx (text : string) (defaultYear : Z) :
  (exists i y,
     year_at text i = Some y /\
     (forall j, (j < i)%nat -> year_at text j = None) /\
     2000 <= y <= 2099 /\
     detectYear text defaultYear = y) \/
  ((forall i, year_at text i = None) /\
   detectYear text defaultYear = defaultYear).
Proof.
  unfold detectYear.
  pose proof (first_match_spec text) as Hspec.
  pose proof (first_match_range text) as Hrange.
  destruct (first_match text) as [y|].
  - left. destruct Hspec as [i [Hi Hmin]]. exists i, y.
    specialize (Hrange y eq_refl).
    repeat split; auto; try lia.
    destruct (y <? 2000) eqn:E1; [apply Z.ltb_lt in E1; lia|].
    destruct (2100 <? y) eqn:E2; [apply Z.ltb_lt in E2; lia|].
    reflexivity.
  - right. split; [exact Hspec|].
    now destruct ((defaultYear <? 2000) || (2100 <? defaultYear)).
Qed.

(** ** The reading of the specification *)

(** Following the words of the specification: the first four consecutive
    digits of the text, as a number. *)
Fixpoint first_four_digits (s : string) : option Z :=
  match s with
  | EmptyString => None
  | String c1 s' =>
      match s' with
      | String c2 (String c3 (String c4 _)) =>
          if is_digit c1 && is_digit c2 && is_digit c3 && is_digit c4
          then Some (1000 * digit_value c1 + 100 * digit_value c2
                     + 10 * digit_value c3 + digit_value c4)
          else first_four_digits s'
      | _ => None
      end
  end.

(** Following the words of the specification: that token when it lies in
    [2000, 2100], the default otherwise. *)
Definition detectYear_as_specified (text : string) (defaultYear : Z) : Z :=
  match first_four_digits text with
  | Some y => if (2000 <=? y) && (y <=? 2100) then y else defaultYear
  | None => defaultYear
  end.

(** The text [2100] holds a 4-digit token in range, yet no [20xx]: the
    default comes back.  In [1999 2020] the first 4-digit token is out of
    range, yet the later [2020] is picked. *)
Lemma detectYear_not_first_token :
  detectYear "2100" 2024 = 2024 /\
  detectYear_as_specified "2100" 2024 = 2100 /\
  detectYear "1999 2020" 2024 = 2020 /\
  detectYear_as_specified "1999 2020" 2024 = 2024 /\
  detectYear "120195" 2024 = 2019.
Proof. repeat split; vm_compute; reflexivity. Qed.

End Chatbot.

(* ================================================================== *)
(** * The report routes: normalising the reply of the completion service *)
(* ================================================================== *)

Module ReportReply.
Import Json.

(** What a route sends back: [res.json(body)], or
    [res.status(status).json({ error, ... })]. *)
Inductive Response : Type :=
| Success (body : json)
| Failure (status : nat) (error : string).

(** [projection || null], [projection] being the object
    [computeProjection] returned, or [null]. *)
Definition or_null (projection : option Fields) : json :=
  match projection with
  | Some fields => JObject fields
  | None => JNull
  end.

(** ** routes/aiPopulation.js, lines 287-306

    [assistant] is the text of the reply, [parsed] the outcome of
    [JSON.parse(assistant)] ([None] when it throws) and [oJson] the body
    of the completion service's response. *)
Definition population_reply
           (assistant : string) (parsed : option json)
           (projection : option Fields) (prompt : string) (oJson : json)
  : Response :=
  let structured :=
    match parsed with
    | Some v => v
    | None =>
        JObject [ ("summary", JString assistant);
                  ("highlights", JArray []);
                  ("projection", or_null projection);
                  ("raw_prompt", JString prompt);
                  ("openai_response", oJson) ]%string
    end in
  match structured with
  | JNull =>
      (* reading [structured.projection] throws; the route's [catch] *)
      Failure 500 "Internal server error"
  | JObject fields =>
      let fields1 := fill "projection" (or_null projection) fields in
      let fields2 := fill "raw_prompt" (JString prompt) fields1 in
      Success (JObject fields2)
  | other =>
      (* a field set on a number, a string or a boolean is dropped, one
         set on an array is not serialised *)
      Success other
  end.

(** ** routes/aiInternet.js, lines 292-310, and routes/aiUrbanRural.js,
    lines 212-230 (the same statements) *)
Definition insights_reply
           (route : string) (content : string) (parsed : option json)
           (prompt : string) : Response :=
  let parsed :=
    match parsed with
    | Some v => v
    | None =>
        JObject [ ("summary", JString content);
                  ("highlights", JArray []);
                  ("insights", JObject []) ]%string
    end in
  match parsed with
  | JNull => Failure 500 ("Internal server error in " ++ route)
  | JObject fields =>
      let fields1 := fill "insights" (JObject []) fields in
      let fields2 := fill "summary" (JString "") fields1 in
      let fields3 := fill "highlights" (JArray []) fields2 in
      Success (JObject (set "raw_prompt" (JString prompt) fields3))
  | other => Success other
  end.

Definition internet_reply := insights_reply "ai-internet-report".
Definition urban_rural_reply := insights_reply "ai-urban-rural-report".

(** ** What the caller receives *)

(** The wrapped reply of the population route. *)
Lemma population_reply_fallback assistant projection prompt oJson :
  population_reply assistant None projection prompt oJson
  = Success (JObject [ ("summary", JString assistant);
                       ("highlights", JArray []);
                       ("projection", or_null projection);
                       ("raw_prompt", JString prompt);
                       ("openai_response", oJson) ]%string).
Proof.
  unfold population_reply, fill.
  destruct projection as [fields|];
    destruct (String.eqb_spec prompt "") as [->|E]; simpl;
    try reflexivity;
    apply String.eqb_neq in E; rewrite E; reflexivity.
Qed.

(** The wrapped reply of the internet and urban/rural routes. *)
Lemma insights_reply_fallback route content prompt :
  insights_reply route content None prompt
  = Success (JObject [ ("summary", JString content);
                       ("highlights", JArray []);
                       ("insights", JObject []);
                       ("raw_prompt", JString prompt) ]%string).
Proof.
  unfold insights_reply, fill.
  destruct (String.eqb_spec content "") as [->|E]; simpl;
    try reflexivity;
    apply String.eqb_neq in E; rewrite E; reflexivity.
Qed.

(** C5 (as amended).  On the internet and urban/rural routes, a reply that
    does not parse gives [summary] = the raw text, empty [highlights],
    [insights] = the empty object and the prompt as [raw_prompt]; a reply
    that parses as an object is sent with [summary], [highlights] and
    [insights] kept when supplied and otherwise set to the empty string,
    sequence and object, with [raw_prompt] set to the prompt and every
    other field as it was.  On the population route, a reply that does not
    parse gives [summary] = the raw text, empty [highlights], [projection]
    = the computed projection or [null], and the prompt as [raw_prompt]; a
    reply that parses as an object is sent with its [projection] when it
    supplied one and the computed projection (or [null]) otherwise, and
    with the prompt as [raw_prompt] unless it supplied one. *)
Theorem replies_normalised :
  (forall route content prompt,
     insights_reply route content None prompt
     = Success (JObject [ ("summary", JString content);
                          ("highlights", JArray []);
                          ("insights", JObject []);
                          ("raw_prompt", JString prompt) ]%string)) /\
  (forall route content prompt fields,
     exists sent,
       insights_reply route content (Some (JObject fields)) prompt
       = Success (JObject sent) /\
       get "summary" sent
       = Some (value_or (get "summary" fields) (JString "")) /\
       get "highlights" sent
       = Some (value_or (get "highlights" fields) (JArray [])) /\
       get "insights" sent
       = Some (value_or (get "insights" fields) (JObject [])) /\
       get "raw_prompt" sent = Some (JString prompt) /\
       forall key,
         ~ In key ["summary"; "highlights"; "insights"; "raw_prompt"]%string ->
         get key sent = get key fields) /\
  (forall assistant projection prompt oJson,
     exists sent,
       population_reply assistant None projection prompt oJson
       = Success (JObject sent) /\
       get "summary" sent = Some (JString assistant) /\
       get "highlights" sent = Some (JArray []) /\
       get "projection" sent = Some (or_null projection) /\
       get "raw_prompt" sent = Some (JString prompt)) /\
  (forall assistant projection prompt oJson fields,
     exists sent,
       population_reply assistant (Some (JObject fields)) projection prompt
                        oJson
       = Success (JObject sent) /\
       get "projection" sent
       = Some (value_or (get "projection" fields) (or_null projection)) /\
       get "raw_prompt" sent
       = Some (value_or (get "raw_prompt" fields) (JString prompt))).
Proof.
  split; [exact insights_reply_fallback|]. split; [|split].
  - intros route content prompt fields. eexists. split; [reflexivity|].
    split; [|split; [|split; [|split]]].
    + rewrite get_set_other, get_fill_other, get_fill_same,
        get_fill_other by discriminate. reflexivity.
    + rewrite get_set_other, get_fill_same, !get_fill_other by discriminate.
      reflexivity.
    + rewrite get_set_other, !get_fill_other, get_fill_same by discriminate.
      reflexivity.
    + apply get_set_same.
    + intros key Hkey. simpl in Hkey.
      rewrite get_set_other, !get_fill_other; auto; intros ->; tauto.
  - intros assistant projection prompt oJson. eexists.
    split; [apply population_reply_fallback|]. repeat split.
  - intros assistant projection prompt oJson fields. eexists.
    split; [reflexivity|]. split.
    + rewrite get_fill_other, get_fill_same by discriminate. reflexivity.
    + rewrite get_fill_same, get_fill_other by discriminate. reflexivity.
Qed.

(** A reply that parses as an object with a summary and a field of its
    own: both are kept, the gaps are filled. *)
Lemma replies_normalised_sample :
  exists sent,
    internet_reply "{...}"
      (Some (JObject [ ("summary", JString "s"); ("note", JBool true) ]%string))
      "PROMPT"
    = Success (JObject sent) /\
    get "summary" sent = Some (JString "s") /\
    get "highlights" sent = Some (JArray []) /\
    get "insights" sent = Some (JObject []) /\
    get "raw_prompt" sent = Some (JString "PROMPT") /\
    get "note" sent = Some (JBool true).
Proof.
  destruct (proj1 (proj2 replies_normalised)
                  "ai-internet-report"%string "{...}"%string "PROMPT"%string
                  [ ("summary", JString "s"); ("note", JBool true) ]%string)
    as (sent & Hsent & Hsummary & Hhighlights & Hinsights & Hprompt & Hother).
  exists sent. split; [exact Hsent|].
  split; [exact Hsummary|]. split; [exact Hhighlights|].
  split; [exact Hinsights|]. split; [exact Hprompt|].
  rewrite Hother; [reflexivity|].
  simpl. intros [H|[H|[H|[H|[]]]]]; discriminate.
Defined.

(** Replies the routes do not bring to the advertised shape.  The
    population route sends the parsed object [{}] without [summary] and
    [highlights], and keeps a [raw_prompt] the reply supplied; the
    internet route wraps a reply that does not parse with the empty object
    as [insights]; a reply that parses as a number is sent as it is, and
    one that parses as [null] fails the request. *)
Lemma replies_left_incomplete :
  population_reply "{}" (Some (JObject [])) None "PROMPT" JNull
  = Success (JObject [ ("projection", JNull);
                       ("raw_prompt", JString "PROMPT") ]%string) /\
  member "summary"
         (JObject [ ("projection", JNull);
                    ("raw_prompt", JString "PROMPT") ]%string) = None /\
  member "highlights"
         (JObject [ ("projection", JNull);
                    ("raw_prompt", JString "PROMPT") ]%string) = None /\
  population_reply "{...}"
    (Some (JObject [ ("summary", JString "s");
                     ("raw_prompt", JString "other") ]%string))
    None "PROMPT" JNull
  = Success (JObject [ ("summary", JString "s");
                       ("raw_prompt", JString "other");
                       ("projection", JNull) ]%string) /\
  internet_reply "Xin chao" None "PROMPT"
  = Success (JObject [ ("summary", JString "Xin chao");
                       ("highlights", JArray []);
                       ("insights", JObject []);
                       ("raw_prompt", JString "PROMPT") ]%string) /\
  internet_reply "42" (Some (JNumber 42)) "PROMPT" = Success (JNumber 42) /\
  internet_reply "null" (Some JNull) "PROMPT"
  = Failure 500 "Internal server error in ai-internet-report".
Proof. repeat split. Qed.

(** C10.  When the reply of the completion service does not parse, the
    population route sends, besides [summary], [highlights], [projection]
    and [raw_prompt], the whole response body of the completion service as
    [openai_response]; when the reply parses, the route leaves
    [openai_response] as the reply has it: absent unless the reply itself
    carries it. *)
Theorem population_reply_openai_response :
  (forall assistant projection prompt oJson,
     exists sent,
       population_reply assistant None projection prompt oJson
       = Success (JObject sent) /\
       get "openai_response" sent = Some oJson /\
       get "summary" sent = Some (JString assistant) /\
       get "highlights" sent = Some (JArray []) /\
       get "projection" sent = Some (or_null projection) /\
       get "raw_prompt" sent = Some (JString prompt)) /\
  (forall assistant v projection prompt oJson body,
     population_reply assistant (Some v) projection prompt oJson
     = Success body ->
     member "openai_response" body = member "openai_response" v).
Proof.
  split.
  - intros assistant projection prompt oJson. eexists.
    split; [apply population_reply_fallback|]. repeat split.
  - intros assistant v projection prompt oJson body.
    unfold population_reply.
    destruct v; try (intros [= <-]; reflexivity).
    intros [= <-]. simpl.
    rewrite !get_fill_other by discriminate. reflexivity.
Qed.

(** A reply that parses, with and without an [openai_response] of its
    own. *)
Lemma population_reply_openai_response_parsed :
  member "openai_response"
    (JObject [ ("projection", JNull); ("raw_prompt", JString "PROMPT") ]%string)
  = None /\
  population_reply "{}" (Some (JObject [])) None "PROMPT" (JString "body")
  = Success (JObject [ ("projection", JNull);
                       ("raw_prompt", JString "PROMPT") ]%string) /\
  member "openai_response"
    (JObject [ ("projection", JNull); ("raw_prompt", JString "PROMPT") ]%string)
  = member "openai_response" (JObject []).
Proof.
  split; [reflexivity|]. split; [reflexivity|].
  exact (proj2 population_reply_openai_response
               "{}"%string (JObject []) None "PROMPT"%string
               (JString "body") _ eq_refl).
Defined.

End ReportReply.

(* ================================================================== *)
(** * Fetching the datasets *)
(* ================================================================== *)

Module DatasetProvider.

(** The internal read endpoints under [/api/reports]; the query string of
    a call is fixed by the request being served. *)
Inductive Endpoint : Type :=
| PopulationByProvince
| PopulationTrend
| AgeStructure
| SexRatio
| InternetAccess
| InternetTrend
| UrbanRuralByProvince
| UrbanRuralSummary
| UrbanRuralReport.

Section Fetching.

(** A parsed response body. *)
Variable Body : Type.

(** How a [fetch] ends: the promise rejects (the server cannot be
    reached), or it resolves with a response whose [ok] flag is given and
    whose [json()] yields [body], or rejects when [body] is [None]. *)
Inductive FetchOutcome : Type :=
| Rejected
| Responded (ok : bool) (body : option Body).

(** The network, as the outcome of a fetch of each endpoint. *)
Variable fetch : Endpoint -> FetchOutcome.

(** ** routes/aiPopulation.js: safeFetchServerReports *)

(** The [results] object; [None] is a key that was not set. *)
Record Results : Type := {
  population_by_province : option Body;
  population_trend : option Body;
  age_structure : option Body;
  sex_ratio : option Body
}.

Definition no_results : Results :=
  {| population_by_province := None; population_trend := None;
     age_structure := None; sex_ratio := None |}.

(** [if (res.ok) results.key = await res.json()]: [None] when [json()]
    rejects, and otherwise the value the key ends with. *)
Definition read_if_ok (ok : bool) (body : option Body)
  : option (option Body) :=
  if ok then
    match body with
    | Some v => Some (Some v)
    | None => None
    end
  else Some None.

(** The fetches issued and the object returned.  The four fetches are
    started before any is awaited; [Promise.all] rejects when one of them
    does, and the [catch] then returns [results] as it stands. *)
Definition safeFetchServerReports : list Endpoint * Results :=
  let issued := [PopulationByProvince; PopulationTrend; AgeStructure;
                 SexRatio] in
  match fetch PopulationByProvince, fetch PopulationTrend,
        fetch AgeStructure, fetch SexRatio with
  | Responded ok1 b1, Responded ok2 b2, Responded ok3 b3, Responded ok4 b4 =>
      let results := no_results in
      match read_if_ok ok1 b1 with
      | None => (issued, results)
      | Some byProv =>
          let results :=
            {| population_by_province := byProv;
               population_trend := population_trend results;
               age_structure := age_structure results;
               sex_ratio := sex_ratio results |} in
          match read_if_ok ok2 b2 with
          | None => (issued, results)
          | Some trend =>
              let results :=
                {| population_by_province := population_by_province results;
                   population_trend := trend;
                   age_structure := age_structure results;
                   sex_ratio := sex_ratio results |} in
              match read_if_ok ok3 b3 with
              | None => (issued, results)
              | Some ages =>
                  let results :=
                    {| population_by_province :=
                         population_by_province results;
                       population_trend := population_trend results;
                       age_structure := ages;
                       sex_ratio := sex_ratio results |} in
                  match read_if_ok ok4 b4 with
                  | None => (issued, results)
                  | Some sexes =>
                      (issued,
                       {| population_by_province :=
                            population_by_province results;
                          population_trend := population_trend results;
                          age_structure := age_structure results;
                          sex_ratio := sexes |})
                  end
              end
          end
      end
  | _, _, _, _ => (issued, no_results)
  end.

(** ** routes/chatbot.js: fetchJson, loadDatasetsForTopic *)

(** [fetchJson]: the parsed body, or [None] when it throws (the fetch
    rejects, the response is not [ok], or the body does not parse). *)
Definition fetchJson (e : Endpoint) : option Body :=
  match fetch e with
  | Responded true (Some v) => Some v
  | _ => None
  end.

(** The topic [detectTopic] found; any other value takes the population
    branch. *)
Inductive Topic : Type :=
| Internet
| UrbanRural
| Population.

(** The fetches issued, and the [datasets] object or [None] when a
    [fetchJson] throws.  Each fetch is awaited before the next is
    issued. *)
Definition loadDatasetsForTopic (topic : Topic)
  : list Endpoint * option (list (string * Body)) :=
  match topic with
  | Internet =>
      match fetchJson InternetAccess with
      | None => ([InternetAccess], None)
      | Some access =>
          match fetchJson InternetTrend with
          | None => ([InternetAccess; InternetTrend], None)
          | Some trend =>
              ([InternetAccess; InternetTrend],
               Some [ ("internet_access", access);
                      ("internet_trend", trend) ]%string)
          end
      end
  | UrbanRural =>
      match fetchJson UrbanRuralByProvince with
      | None => ([UrbanRuralByProvince], None)
      | Some byProv =>
          match fetchJson UrbanRuralSummary with
          | None => ([UrbanRuralByProvince; UrbanRuralSummary], None)
          | Some summary =>
              ([UrbanRuralByProvince; UrbanRuralSummary],
               Some [ ("urban_rural_by_province", byProv);
                      ("urban_rural_summary", summary) ]%string)
          end
      end
  | Population =>
      match fetchJson PopulationByProvince with
      | None => ([PopulationByProvince], None)
      | Some byProv =>
          match fetchJson PopulationTrend with
          | None => ([PopulationByProvince; PopulationTrend], None)
          | Some trend =>
              match fetchJson AgeStructure with
              | None =>
                  ([PopulationByProvince; PopulationTrend; AgeStructure],
                   None)
              | Some ages =>
                  match fetchJson SexRatio with
                  | None =>
                      ([PopulationByProvince; PopulationTrend; AgeStructure;
                        SexRatio], None)
                  | Some sexes =>
                      ([PopulationByProvince; PopulationTrend; AgeStructure;
                        SexRatio],
                       Some [ ("population_by_province", byProv);
                              ("population_trend", trend);
                              ("age_structure", ages);
                              ("sex_ratio", sexes) ]%string)
                  end
              end
          end
      end
  end.

(** The datasets of a topic, in the order they are fetched. *)
Definition datasets_of (topic : Topic) : list (string * Endpoint) :=
  match topic with
  | Internet =>
      [ ("internet_access", InternetAccess);
        ("internet_trend", InternetTrend) ]%string
  | UrbanRural =>
      [ ("urban_rural_by_province", UrbanRuralByProvince);
        ("urban_rural_summary", UrbanRuralSummary) ]%string
  | Population =>
      [ ("population_by_province", PopulationByProvince);
        ("population_trend", PopulationTrend);
        ("age_structure", AgeStructure);
        ("sex_ratio", SexRatio) ]%string
  end.

(** Fetching a list of datasets one after the other, stopping at the
    first that fails. *)
Fixpoint fetch_in_turn (l : list (string * Endpoint))
  : list Endpoint * option (list (string * Body)) :=
  match l with
  | [] => ([], Some [])
  | (name, e) :: rest =>
      match fetchJson e with
      | None => ([e], None)
      | Some v =>
          let '(issued, datasets) := fetch_in_turn rest in
          (e :: issued, option_map (cons (name, v)) datasets)
      end
  end.

(** ** Properties *)

Lemma loadDatasetsForTopic_in_turn topic :
  loadDatasetsForTopic topic = fetch_in_turn (datasets_of topic).
Proof.
  destruct topic; unfold loadDatasetsForTopic; simpl;
    repeat match goal with
           | |- context [fetchJson ?e] => destruct (fetchJson e)
           end; reflexivity.
Qed.


Lemma fetch_in_turn_all_ok l :
  (forall n e, In (n, e) l -> fetchJson e <> None) ->
  exists datasets,
    fetch_in_turn l = (map snd l, Some datasets) /\
    Forall2 (fun ne nv => fst nv = fst ne /\ fetchJson (snd ne) = Some (snd nv))
            l datasets.
Proof.
  induction l as [|[n e] l IH]; simpl; intros Hok.
  - exists []. split; [reflexivity|constructor].
  - destruct (fetchJson e) as [v|] eqn:E;
      [|exfalso; apply (Hok n e); auto].
    destruct IH as [datasets [Heq Hall]];
      [intros n' e' H; eapply Hok; eauto|].
    rewrite Heq. exists ((n, v) :: datasets). split; [reflexivity|].
    constructor; auto.
Qed.

(** Whatever [safeFetchServerReports] returns for a dataset is the body of
    that dataset's own [ok] response. *)
Lemma safeFetchServerReports_sound :
  let results := snd safeFetchServerReports in
  (forall b, population_by_province results = Some b ->
             fetch PopulationByProvince = Responded true (Some b)) /\
  (forall b, population_trend results = Some b ->
             fetch PopulationTrend = Responded true (Some b)) /\
  (forall b, age_structure results = Some b ->
             fetch AgeStructure = Responded true (Some b)) /\
  (forall b, sex_ratio results = Some b ->
             fetch SexRatio = Responded true (Some b)).
Proof.
  cbv zeta. unfold safeFetchServerReports.
  destruct (fetch PopulationByProvince) as [|ok1 b1],
           (fetch PopulationTrend) as [|ok2 b2],
           (fetch AgeStructure) as [|ok3 b3],
           (fetch SexRatio) as [|ok4 b4];
    try (simpl; repeat split; intros; discriminate).
  destruct ok1, b1, ok2, b2, ok3, b3, ok4, b4; simpl;
    repeat split; intros body Hbody; (discriminate || congruence).
Qed.

End Fetching.





End DatasetProvider.

(* ================================================================== *)
(** * The report routes: from the request to the aggregator *)
(* ================================================================== *)

Module Routes.
Import Json ReportReply.

(** ** POST /ai-internet-report (routes/aiInternet.js, lines 212-318) *)

(** [datasets] of the request body; a field that is absent or not an
    array is not [ArgArray]. *)
Record InternetDatasets : Type := {
  internet_access : ArrayArg AiInternet.AccessRow;
  internet_trend : ArrayArg AiInternet.TrendRow
}.

(** The request body [{ year, province = null, datasets = null }]; a
    missing body reads as one with every field absent. *)
Record InternetRequest : Type := {
  year : option json;
  province : option string;
  datasets : option InternetDatasets
}.

(** How the call to the completion service ends: the fetch or the reading
    of its body throws; the response is not [ok] and carries [text]; or it
    is [ok] with the body [oJson], of which [content] is
    [oJson?.choices?.[0]?.message?.content || ''] and [parsed] the outcome
    of [JSON.parse(content)], [None] when it throws. *)
Inductive Completion : Type :=
| CompletionThrows
| CompletionNotOk (text : string)
| CompletionOk (oJson : json) (content : string) (parsed : option json).

(** What the route does besides answering. *)
Inductive Event : Type :=
| Aggregated (rows : list AiInternet.AccessRow)
| CompletionRequested (prompt : string).

Definition missing_year : string :=
  "Thiếu tham số year trong request body.".

Definition missing_internet_access : string :=
  "Thiếu datasets.internet_access trong body. Vui lòng gửi dữ liệu Internet access hiện tại từ frontend.".

(** [Array.isArray(x) ? x : []] *)
Definition rows_or_none (A : Type) (x : ArrayArg A) : list A :=
  match x with
  | ArgArray rows => rows
  | _ => []
  end.

(** [accessRows] after lines 223-233. *)
Definition accessRows (req : InternetRequest) : list AiInternet.AccessRow :=
  match datasets req with
  | Some d => rows_or_none (internet_access d)
  | None => []
  end.

Definition trendRows (req : InternetRequest) : list AiInternet.TrendRow :=
  match datasets req with
  | Some d => rows_or_none (internet_trend d)
  | None => []
  end.

Section InternetRoute.

(** [process.env.OPENAI_API_KEY] *)
Variable OPENAI_API_KEY : option string.

Variable buildPromptFromInternetData :
  option json -> option string -> AiInternet.Aggregate ->
  option AiInternet.TrendSummary -> string.

(** The completion service, asked with a prompt. *)
Variable complete : string -> Completion.

Definition api_key_set : bool :=
  match OPENAI_API_KEY with
  | Some k => negb (String.eqb k "")
  | None => false
  end.

(** The events of the route, in order, and its response. *)
Definition ai_internet_report (req : InternetRequest)
  : list Event * Response :=
  if negb (truthy (year req)) then ([], Failure 400 missing_year)
  else if (length (accessRows req) =? 0)%nat
  then ([], Failure 400 missing_internet_access)
  else
    let agg := AiInternet.aggregateInternetAccess (accessRows req) in
    let trendSummary := AiInternet.summarizeTrend (ArgArray (trendRows req)) in
    let prompt :=
      buildPromptFromInternetData (year req) (province req) agg
                                  trendSummary in
    if negb api_key_set
    then ([Aggregated (accessRows req)],
          Failure 500 "OPENAI_API_KEY chưa được cấu hình trên server.")
    else
      let events := [Aggregated (accessRows req);
                     CompletionRequested prompt] in
      match complete prompt with
      | CompletionThrows =>
          (events,
           Failure 500 "Internal server error in ai-internet-report")
      | CompletionNotOk text => (events, Failure 502 "OpenAI API error")
      | CompletionOk oJson content parsed =>
          (events, internet_reply content parsed prompt)
      end.

End InternetRoute.

(** ** POST /ai-population-report: the datasets
    (routes/aiPopulation.js, lines 225-238) *)

Section FetchedDatasets.

(** A row of a dataset; a parsed response body is an [ArrayArg Row], an
    array of rows or some other value. *)
Variable Row : Type.

(** [data] after the defensive lines 235-238: four arrays. *)
Record PopulationDatasets : Type := {
  population_by_province : list Row;
  population_trend : list Row;
  age_structure : list Row;
  sex_ratio : list Row
}.

(** [datasets] of the request body; a field that is absent or not an
    array is not [ArgArray]. *)
Record InlineDatasets : Type := {
  inline_population_by_province : ArrayArg Row;
  inline_population_trend : ArrayArg Row;
  inline_age_structure : ArrayArg Row;
  inline_sex_ratio : ArrayArg Row
}.

(** A key of the fetched [results]: not set, or the parsed body. *)
Definition fetched (x : option (ArrayArg Row)) : ArrayArg Row :=
  match x with
  | Some body => body
  | None => ArgUndefined
  end.

Variable fetch :
  DatasetProvider.Endpoint -> DatasetProvider.FetchOutcome (ArrayArg Row).

(** The fetches issued and the four datasets handed on to
    [computeProjection] and the prompt. *)
Definition population_data (datasets : option InlineDatasets)
  : list DatasetProvider.Endpoint * PopulationDatasets :=
  match datasets with
  | Some d =>
      ([],
       {| population_by_province :=
            rows_or_none (inline_population_by_province d);
          population_trend := rows_or_none (inline_population_trend d);
          age_structure := rows_or_none (inline_age_structure d);
          sex_ratio := rows_or_none (inline_sex_ratio d) |})
  | None =>
      let '(issued, results) :=
        DatasetProvider.safeFetchServerReports fetch in
      (issued,
       {| population_by_province :=
            rows_or_none
              (fetched (DatasetProvider.population_by_province results));
          population_trend :=
            rows_or_none (fetched (DatasetProvider.population_trend results));
          age_structure :=
            rows_or_none (fetched (DatasetProvider.age_structure results));
          sex_ratio :=
            rows_or_none (fetched (DatasetProvider.sex_ratio results)) |})
  end.

(** ** POST /ai-urban-rural-report: the rows
    (routes/aiUrbanRural.js, lines 59-75 and 158-164) *)

(** [fetchUrbanRuralFromServer]: the parsed body, or [[]] when the fetch
    rejects, the response is not [ok] or its body does not parse. *)
Definition fetchUrbanRuralFromServer : ArrayArg Row :=
  match fetch DatasetProvider.UrbanRuralReport with
  | DatasetProvider.Responded true (Some body) => body
  | _ => ArgArray []
  end.

(** The fetches issued and [rows]; [urban_rural] is [datasets.urban_rural]
    when the request has [datasets]. *)
Definition urban_rural_rows (urban_rural : option (ArrayArg Row))
  : list DatasetProvider.Endpoint * ArrayArg Row :=
  match urban_rural with
  | Some (ArgArray rows) => ([], ArgArray rows)
  | _ => ([DatasetProvider.UrbanRuralReport], fetchUrbanRuralFromServer)
  end.

End FetchedDatasets.

(** ** Properties *)

Section PopulationData.
Variable Row : Type.
Variable fetch :
  DatasetProvider.Endpoint -> DatasetProvider.FetchOutcome (ArrayArg Row).

(** The dataset of an endpoint, in the inline datasets and in the data
    handed on. *)
Definition inline_of (e : DatasetProvider.Endpoint) (d : InlineDatasets Row)
  : ArrayArg Row :=
  match e with
  | DatasetProvider.PopulationByProvince => inline_population_by_province d
  | DatasetProvider.PopulationTrend => inline_population_trend d
  | DatasetProvider.AgeStructure => inline_age_structure d
  | DatasetProvider.SexRatio => inline_sex_ratio d
  | _ => ArgUndefined
  end.

Definition dataset_of (e : DatasetProvider.Endpoint)
           (data : PopulationDatasets Row) : list Row :=
  match e with
  | DatasetProvider.PopulationByProvince => population_by_province data
  | DatasetProvider.PopulationTrend => population_trend data
  | DatasetProvider.AgeStructure => age_structure data
  | DatasetProvider.SexRatio => sex_ratio data
  | _ => []
  end.

Lemma rows_or_none_not_array (x : ArrayArg Row) :
  (forall rows, x <> ArgArray rows) -> rows_or_none x = [].
Proof. destruct x as [| |rows]; auto. intros H. now destruct (H rows). Qed.

Lemma population_data_inline d e :
  dataset_of e (snd (population_data fetch (Some d)))
  = rows_or_none (inline_of e d).
Proof. destruct e; reflexivity. Qed.

Lemma population_data_fetched e :
  (forall rows,
     fetch e <> DatasetProvider.Responded true (Some (ArgArray rows))) ->
  dataset_of e (snd (population_data fetch None)) = [].
Proof.
  intros Hfail. unfold population_data.
  pose proof (DatasetProvider.safeFetchServerReports_sound fetch) as Hsound.
  destruct (DatasetProvider.safeFetchServerReports fetch) as [issued results].
  cbv zeta in Hsound. cbn [snd] in *.
  destruct Hsound as (H1 & H2 & H3 & H4).
  destruct e; cbn [dataset_of population_by_province population_trend
                   age_structure sex_ratio]; auto;
    apply rows_or_none_not_array; intros rows Hrows; unfold fetched in Hrows.
  - destruct (DatasetProvider.population_by_province results) as [b|] eqn:E;
      [|discriminate].
    subst b. apply (Hfail rows). now apply H1.
  - destruct (DatasetProvider.population_trend results) as [b|] eqn:E;
      [|discriminate].
    subst b. apply (Hfail rows). now apply H2.
  - destruct (DatasetProvider.age_structure results) as [b|] eqn:E;
      [|discriminate].
    subst b. apply (Hfail rows). now apply H3.
  - destruct (DatasetProvider.sex_ratio results) as [b|] eqn:E;
      [|discriminate].
    subst b. apply (Hfail rows). now apply H4.
Qed.

End PopulationData.

(** C6 (as amended).  A request to the internet route whose
    [datasets.internet_access] is absent, not an array or empty is
    answered 400 before [aggregateInternetAccess] or the completion service
    is reached; the message is the one of the missing dataset when [year]
    is given, and the one of the missing year otherwise, that check coming
    first.  On the population route no dataset is required: with inline
    datasets nothing is fetched and a dataset that is not an array is the
    empty sequence; without them, a dataset whose fetch did not bring an
    array is the empty sequence.  On the urban/rural route, rows that are
    not sent inline are fetched, and are the empty sequence when that fetch
    fails. *)
Theorem missing_dataset_handling :
  (forall key buildPrompt complete req,
     (forall d rows, datasets req = Some d ->
                     internet_access d = ArgArray rows -> rows = []) ->
     exists message,
       ai_internet_report key buildPrompt complete req
       = ([], Failure 400 message) /\
       (truthy (year req) = true -> message = missing_internet_access) /\
       (truthy (year req) = false -> message = missing_year)) /\
  (forall (Row : Type) fetch (d : InlineDatasets Row) e,
     fst (population_data fetch (Some d)) = [] /\
     ((forall rows, inline_of e d <> ArgArray rows) ->
      dataset_of e (snd (population_data fetch (Some d))) = [])) /\
  (forall (Row : Type)
          (fetch : DatasetProvider.Endpoint ->
                   DatasetProvider.FetchOutcome (ArrayArg Row)) e,
     (forall rows,
        fetch e <> DatasetProvider.Responded true (Some (ArgArray rows))) ->
     dataset_of e (snd (population_data fetch None)) = []) /\
  (forall (Row : Type)
          (fetch : DatasetProvider.Endpoint ->
                   DatasetProvider.FetchOutcome (ArrayArg Row)) urban_rural,
     (forall rows, urban_rural <> Some (ArgArray rows)) ->
     DatasetProvider.fetchJson fetch DatasetProvider.UrbanRuralReport = None ->
     urban_rural_rows fetch urban_rural
     = ([DatasetProvider.UrbanRuralReport], ArgArray [])).
Proof.
  split; [|split; [|split]].
  - intros key buildPrompt complete req Hmissing.
    unfold ai_internet_report.
    destruct (truthy (year req)) eqn:Hyear; simpl.
    + assert (Hrows : accessRows req = []).
      { unfold accessRows. destruct (datasets req) as [d|] eqn:Hd; auto.
        destruct (internet_access d) as [| |rows] eqn:Ha; simpl; auto.
        now apply (Hmissing d). }
      rewrite Hrows. simpl. eexists. split; [reflexivity|].
      split; [reflexivity|discriminate].
    + eexists. split; [reflexivity|]. split; [discriminate|reflexivity].
  - intros Row fetch d e. split; [reflexivity|]. intros Hnot.
    rewrite population_data_inline. now apply rows_or_none_not_array.
  - intros Row fetch e. apply population_data_fetched.
  - intros Row fetch urban_rural Hinline Hfetch.
    unfold urban_rural_rows, fetchUrbanRuralFromServer.
    unfold DatasetProvider.fetchJson in Hfetch.
    destruct urban_rural as [[| |rows]|];
      try (now destruct (Hinline rows));
      destruct (fetch DatasetProvider.UrbanRuralReport) as [|[|] [body|]];
      try reflexivity; discriminate.
Qed.

(** A request for year 2024 that sends no datasets. *)
Definition request_without_datasets : InternetRequest :=
  {| year := Some (JNumber 2024); province := None; datasets := None |}.

Lemma missing_dataset_handling_2024 :
  ai_internet_report (Some "sk-test"%string) (fun _ _ _ _ => "PROMPT"%string)
                     (fun _ => CompletionThrows) request_without_datasets
  = ([], Failure 400 missing_internet_access).
Proof.
  destruct (proj1 missing_dataset_handling
                  (Some "sk-test"%string) (fun _ _ _ _ => "PROMPT"%string)
                  (fun _ => CompletionThrows) request_without_datasets)
    as [message [Heq [Hmsg _]]].
  - intros d rows Hd. discriminate.
  - rewrite Heq, (Hmsg eq_refl). reflexivity.
Defined.

(** A request without [year] and without datasets is rejected for its
    missing year: the message is not the one of the missing dataset. *)
Lemma missing_year_comes_first :
  ai_internet_report (Some "sk-test"%string) (fun _ _ _ _ => "PROMPT"%string)
                     (fun _ => CompletionThrows)
                     {| year := None; province := None; datasets := None |}
  = ([], Failure 400 missing_year) /\
  missing_year <> missing_internet_access.
Proof. split; [reflexivity|discriminate]. Qed.

End Routes.

(* ================================================================== *)
(** * Further properties of the aggregators *)
(* ================================================================== *)

(** ** Sorting rows whose keys are all different *)

Module SortFacts.
Section DistinctKeys.
Variable A : Type.
Variable leb : A -> A -> bool.
Hypothesis leb_total : forall a b, leb a b = true \/ leb b a = true.
Hypothesis leb_trans :
  forall a b c, leb a b = true -> leb b c = true -> leb a c = true.

Lemma filter_permutation (f : A -> bool) l1 l2 :
  Permutation l1 l2 -> Permutation (filter f l1) (filter f l2).
Proof.
  induction 1 as [|x l1 l2 H IH|x y l|l1 l2 l3 H1 IH1 H2 IH2]; simpl.
  - constructor.
  - destruct (f x); auto.
  - destruct (f x), (f y); auto. apply perm_swap.
  - now transitivity (filter f l2).
Qed.

(** When no two rows of the input tie, the sorted array does not depend
    on the order the rows come in. *)
Lemma sort_permutation l1 l2 :
  Permutation l1 l2 ->
  (forall x, (length (filter (JsSort.tie leb x) l1) <= 1)%nat) ->
  JsSort.sort leb l1 = JsSort.sort leb l2.
Proof.
  intros Hperm Hdistinct.
  apply (@JsSort.sorted_ties_unique A leb leb_total);
    try apply (@JsSort.sort_sorted A leb leb_total leb_trans).
  intros x.
  rewrite !(@JsSort.sort_stable A leb leb_trans).
  pose proof (filter_permutation (JsSort.tie leb x) Hperm) as Hf.
  specialize (Hdistinct x).
  destruct (filter (JsSort.tie leb x) l1) as [|a [|b rest]] eqn:E1.
  - apply Permutation_nil in Hf. now rewrite Hf.
  - apply Permutation_length_1_inv in Hf. now rewrite Hf.
  - simpl in Hdistinct. lia.
Qed.

(** The first row of a sorted array goes no later than its last row. *)
Lemma sorted_hd_last (s : list A) (d : A) :
  StronglySorted (fun a b => leb a b = true) s ->
  s <> [] ->
  leb (hd d s) (last s d) = true.
Proof.
  intros Hs Hne. destruct s as [|a s]; [congruence|].
  inversion Hs as [|? ? _ Ha]; subst. simpl hd.
  destruct s as [|b s]; [simpl; apply (@JsSort.leb_refl A leb leb_total)|].
  rewrite Forall_forall in Ha. apply Ha.
  change (last (a :: b :: s) d) with (last (b :: s) d).
  destruct (exists_last (l := b :: s)) as [front [z E]]; [discriminate|].
  rewrite E, last_last. apply in_or_app. simpl. auto.
Qed.

End DistinctKeys.

(** Rows with pairwise different integer keys: at most one row ties with
    any given row. *)
Lemma distinct_keys_no_tie (A : Type) (key : A -> Z) (x : A) (l : list A) :
  NoDup (map key l) ->
  (length (filter (fun y => (key x - key y <=? 0)%Z
                            && (key y - key x <=? 0)%Z) l) <= 1)%nat.
Proof.
  induction l as [|a l IH]; simpl; intros Hnd; [lia|].
  inversion Hnd as [|? ? Hnotin Hnd']; subst.
  destruct ((key x - key a <=? 0)%Z && (key a - key x <=? 0)%Z) eqn:E.
  - apply andb_true_iff in E. destruct E as [E1 E2].
    apply Z.leb_le in E1, E2.
    assert (Hnone : filter (fun y => (key x - key y <=? 0)%Z
                                     && (key y - key x <=? 0)%Z) l = []).
    { destruct (filter _ l) as [|b rest] eqn:Eb; auto.
      exfalso. apply Hnotin.
      assert (Hb : In b (b :: rest)) by (simpl; auto).
      rewrite <- Eb in Hb. apply filter_In in Hb. destruct Hb as [Hb Hkey].
      apply andb_true_iff in Hkey. destruct Hkey as [K1 K2].
      apply Z.leb_le in K1, K2.
      replace (key a) with (key b) by lia. now apply in_map. }
    rewrite Hnone. simpl. lia.
  - now apply IH.
Qed.

End SortFacts.

(** ** computeProjection: sign, direction and order *)

Module ProjectionFacts.
Import AiPopulation.

(** The rate [computeProjection] derives from the first and last
    population and the difference of their years. *)
Definition growth_rate (first last span : Z) : R :=
  if (0 <? first)%Z
  then (Math_pow (IZR last / IZR first) (1 / IZR (or_1 span)) - 1)%R
  else 0%R.

(** The first and last point of the sorted trend. *)
Definition earliest (pts : list TrendPoint) : TrendPoint :=
  hd no_point (JsSort.sort by_census_year pts).
Definition latest (pts : list TrendPoint) : TrendPoint :=
  last (JsSort.sort by_census_year pts) no_point.

Definition rate_of (pts : list TrendPoint) : R :=
  growth_rate (population_or_0 (earliest pts)) (population_or_0 (latest pts))
              (census_year (latest pts) - census_year (earliest pts)).

Lemma last_of_map (A B : Type) (f : A -> B) (l : list A) (d : B) (a : A) :
  l <> [] -> last (map f l) d = f (last l a).
Proof.
  intros Hne.
  destruct (exists_last Hne) as [front [z ->]].
  rewrite map_app. cbn [map]. now rewrite !last_last.
Qed.

Lemma computeProjection_value pts N :
  (2 <= length pts)%nat ->
  computeProjection (ArgArray pts) N
  = Some {| base_year := census_year (latest pts);
            projection_years := N;
            annual_growth_rate := rate_of pts;
            projected_population :=
              match Z.to_nat N with
              | O => None
              | S _ => Some (compounded (rate_of pts)
                                        (population_or_0 (latest pts))
                                        (Z.to_nat N))
              end;
            series :=
              map (fun k =>
                     {| year := census_year (latest pts) + Z.of_nat k;
                        projected :=
                          compounded (rate_of pts)
                                     (population_or_0 (latest pts)) k |})
                  (seq 1 (Z.to_nat N)) |}.
Proof.
  intros Hlen.
  assert (Hlt : (length pts <? 2)%nat = false) by (apply Nat.ltb_ge; lia).
  unfold computeProjection. cbn [array_of]. rewrite Hlt.
  rewrite !nth_last_index, projection_loop_series.
  unfold rate_of, growth_rate, latest, earliest.
  set (t := JsSort.sort by_census_year pts).
  replace (nth 0 t no_point) with (hd no_point t) by (now destruct t).
  f_equal. f_equal.
  destruct (Z.to_nat N) as [|n] eqn:En; [reflexivity|].
  set (f := fun k : nat => _).
  assert (Hne : seq 1 (S n) <> []) by discriminate.
  rewrite (last_of_map f no_series_point 0%nat Hne).
  destruct (map f (seq 1 (S n))) eqn:Em; [discriminate|].
  f_equal. subst f. cbn [projected]. f_equal.
  rewrite seq_S, last_last. reflexivity.
Qed.

(** *** Rounding *)

Lemma Math_round_integer (z : Z) : Math_round (IZR z) = z.
Proof. unfold Math_round. apply Zfloor_eq. lra. Qed.

Lemma Math_round_le (x y : R) :
  (x <= y)%R -> (Math_round x <= Math_round y)%Z.
Proof. intros H. unfold Math_round. apply Zfloor_le. lra. Qed.

Lemma Math_round_nonneg (x : R) : (0 <= x)%R -> (0 <= Math_round x)%Z.
Proof. intros H. unfold Math_round. apply Zfloor_lub. lra. Qed.

(** *** Compounding *)

Lemma compounded_nonneg rate start k :
  (-1 <= rate)%R -> (0 <= start)%Z -> (0 <= compounded rate start k)%Z.
Proof.
  intros Hr Hs. induction k as [|k IH]; simpl; auto.
  apply Math_round_nonneg. apply IZR_le in IH.
  apply Rmult_le_pos; lra.
Qed.

Lemma compounded_up rate start k :
  (0 <= rate)%R -> (0 <= start)%Z ->
  (compounded rate start k <= compounded rate start (S k))%Z.
Proof.
  intros Hr Hs.
  assert (H0 : (0 <= compounded rate start k)%Z)
    by (apply compounded_nonneg; auto; lra).
  cbn [compounded].
  rewrite <- (Math_round_integer (compounded rate start k)) at 1.
  apply Math_round_le. apply IZR_le in H0. nra.
Qed.

Lemma compounded_down rate start k :
  (-1 <= rate <= 0)%R -> (0 <= start)%Z ->
  (compounded rate start (S k) <= compounded rate start k)%Z.
Proof.
  intros Hr Hs.
  assert (H0 : (0 <= compounded rate start k)%Z)
    by (apply compounded_nonneg; auto; lra).
  cbn [compounded].
  rewrite <- (Math_round_integer (compounded rate start k)) at 2.
  apply Math_round_le. apply IZR_le in H0. nra.
Qed.

Lemma compounded_flat start k : compounded 0 start k = start.
Proof.
  induction k as [|k IH]; simpl; auto.
  rewrite IH. replace (IZR start * (1 + 0))%R with (IZR start) by lra.
  apply Math_round_integer.
Qed.

Lemma sorted_map_seq (g : nat -> Z) (R : Z -> Z -> Prop) n : forall a,
  (forall k, R (g k) (g (S k))) -> Sorted R (map g (seq a n)).
Proof.
  induction n as [|n IH]; intros a Hstep; simpl; [constructor|].
  constructor; [now apply IH|].
  destruct n; simpl; constructor. apply Hstep.
Qed.

(** *** The rate *)

Lemma Math_pow_nonneg b e : (0 <= Math_pow b e)%R.
Proof.
  unfold Math_pow. destruct (Rlt_dec 0 b); [|lra].
  unfold Rpower. left. apply exp_pos.
Qed.

Lemma exp_le_1 x : (x <= 0)%R -> (exp x <= 1)%R.
Proof.
  intros [H| ->]; [|rewrite exp_0; lra].
  left. rewrite <- exp_0. now apply exp_increasing.
Qed.

Lemma exp_ge_1 x : (0 <= x)%R -> (1 <= exp x)%R.
Proof.
  intros [H| <-]; [|rewrite exp_0; lra].
  left. rewrite <- exp_0. now apply exp_increasing.
Qed.

Lemma ln_nonneg x : (1 <= x)%R -> (0 <= ln x)%R.
Proof.
  intros [H| <-]; [|rewrite ln_1; lra].
  left. rewrite <- ln_1. apply ln_increasing; lra.
Qed.

Lemma ln_nonpos x : (0 < x <= 1)%R -> (ln x <= 0)%R.
Proof.
  intros [H0 [H| ->]]; [|rewrite ln_1; lra].
  left. rewrite <- ln_1. now apply ln_increasing.
Qed.

Lemma growth_rate_lower first last span : (-1 <= growth_rate first last span)%R.
Proof.
  unfold growth_rate. destruct (0 <? first)%Z; [|lra].
  pose proof (Math_pow_nonneg (IZR last / IZR first) (1 / IZR (or_1 span))).
  lra.
Qed.

Lemma or_1_positive span : (0 <= span)%Z -> (1 <= or_1 span)%Z.
Proof. unfold or_1. destruct (span =? 0)%Z eqn:E; lia. Qed.

Lemma growth_rate_up first last span :
  (0 < first <= last)%Z -> (0 <= span)%Z ->
  (0 <= growth_rate first last span)%R.
Proof.
  intros [Hf Hl] Hs. unfold growth_rate.
  destruct (0 <? first)%Z eqn:E; [|lra].
  apply or_1_positive in Hs. apply IZR_le in Hs, Hl. apply IZR_lt in Hf.
  assert (Hx : (1 <= IZR last / IZR first)%R).
  { apply (Rmult_le_reg_r (IZR first)); [lra|]. field_simplify; lra. }
  rewrite Math_pow_positive by lra. unfold Rpower.
  assert (He : (0 <= 1 / IZR (or_1 span))%R).
  { apply Rmult_le_pos; [lra|]. left. apply Rinv_0_lt_compat. lra. }
  pose proof (ln_nonneg Hx) as Hln.
  pose proof (exp_ge_1 (Rmult_le_pos _ _ He Hln)). lra.
Qed.

Lemma growth_rate_down first last span :
  (0 <= last <= first)%Z -> (0 <= span)%Z ->
  (growth_rate first last span <= 0)%R.
Proof.
  intros [Hl Hf] Hs. unfold growth_rate.
  destruct (0 <? first)%Z eqn:E; [|lra].
  apply Z.ltb_lt in E.
  apply or_1_positive in Hs. apply IZR_le in Hs, Hl, Hf. apply IZR_lt in E.
  unfold Math_pow. destruct (Rlt_dec 0 (IZR last / IZR first)) as [Hpos|]; [|lra].
  assert (Hx : (IZR last / IZR first <= 1)%R).
  { apply (Rmult_le_reg_r (IZR first)); [lra|]. field_simplify; lra. }
  unfold Rpower.
  assert (He : (0 <= 1 / IZR (or_1 span))%R).
  { apply Rmult_le_pos; [lra|]. left. apply Rinv_0_lt_compat. lra. }
  pose proof (ln_nonpos (conj Hpos Hx)) as Hln.
  assert (Hprod : (1 / IZR (or_1 span) * ln (IZR last / IZR first) <= 0)%R)
    by nra.
  pose proof (exp_le_1 Hprod). lra.
Qed.

Lemma growth_rate_same first span : growth_rate first first span = 0%R.
Proof.
  unfold growth_rate. destruct (0 <? first)%Z eqn:E; auto.
  apply Z.ltb_lt, IZR_lt in E.
  replace (IZR first / IZR first)%R with 1%R by (field; lra).
  rewrite Math_pow_positive by lra. unfold Rpower.
  rewrite ln_1, Rmult_0_r, exp_0. lra.
Qed.

(** The sorted trend ends no earlier than it starts. *)
Lemma span_nonneg pts :
  (2 <= length pts)%nat ->
  (0 <= census_year (latest pts) - census_year (earliest pts))%Z.
Proof.
  intros Hlen. unfold latest, earliest.
  pose proof (@SortFacts.sorted_hd_last _ by_census_year by_census_year_total
                (JsSort.sort by_census_year pts) no_point
                (@JsSort.sort_sorted _ by_census_year by_census_year_total
                                     by_census_year_trans pts)) as H.
  unfold by_census_year in H at 1. apply Z.leb_le in H; [lia|].
  intros E. apply (f_equal (@length _)) in E.
  rewrite JsSort.sort_length in E. simpl in E. lia.
Qed.

Lemma series_values pts N :
  population_or_0 (latest pts)
    :: map projected
         (map (fun k =>
                 {| year := census_year (latest pts) + Z.of_nat k;
                    projected :=
                      compounded (rate_of pts)
                                 (population_or_0 (latest pts)) k |})
              (seq 1 (Z.to_nat N)))
  = map (compounded (rate_of pts) (population_or_0 (latest pts)))
        (seq 0 (S (Z.to_nat N))).
Proof. rewrite map_map. reflexivity. Qed.

(** X1.  Whatever the trend, a projection never goes below zero: the rate
    is at least -1 and every projected population, the final one
    included, is a non-negative integer. *)
Theorem projection_never_negative (pts : list TrendPoint) (N : Z) :
  (2 <= length pts)%nat ->
  exists p,
    computeProjection (ArgArray pts) N = Some p /\
    (-1 <= annual_growth_rate p)%R /\
    Forall (fun sp => (0 <= projected sp)%Z) (series p) /\
    (forall v, projected_population p = Some v -> (0 <= v)%Z).
Proof.
  intros Hlen. eexists. split; [apply computeProjection_value, Hlen|].
  cbn [annual_growth_rate series projected_population].
  assert (Hr : (-1 <= rate_of pts)%R) by apply growth_rate_lower.
  assert (Hl : (0 <= population_or_0 (latest pts))%Z)
    by apply population_or_0_nonneg.
  split; [exact Hr|]. split.
  - rewrite Forall_map. apply Forall_forall. intros k _. cbn [projected].
    now apply compounded_nonneg.
  - intros v. destruct (Z.to_nat N) as [|n]; [discriminate|].
    intros Hv.
    assert (Ev : v = compounded (rate_of pts) (population_or_0 (latest pts))
                                (S n)) by congruence.
    rewrite Ev. now apply compounded_nonneg.
Qed.

Lemma projection_never_negative_scenario :
  (2 <= length scenario_trend)%nat /\
  exists p,
    computeProjection (ArgArray scenario_trend) 3 = Some p /\
    (-1 <= annual_growth_rate p)%R /\
    Forall (fun sp => (0 <= projected sp)%Z) (series p).
Proof.
  split; [simpl; lia|].
  destruct (@projection_never_negative scenario_trend 3)
    as (p & Hp & Hrate & Hseries & _); [simpl; lia|].
  exists p. auto.
Defined.

(** X2.  The projection follows the direction of the trend.  When the
    latest population is at least the earliest (and that one is
    positive), the rate is not negative and the series never decreases,
    starting from the latest population; when the latest population is at
    most the earliest, the rate is not positive and the series never
    increases. *)
Theorem projection_follows_trend (pts : list TrendPoint) (N : Z) :
  (2 <= length pts)%nat ->
  exists p,
    computeProjection (ArgArray pts) N = Some p /\
    let first := population_or_0 (earliest pts) in
    let last := population_or_0 (latest pts) in
    ((0 < first <= last)%Z ->
       (0 <= annual_growth_rate p)%R /\
       Sorted Z.le (last :: map projected (series p))) /\
    ((last <= first)%Z ->
       (annual_growth_rate p <= 0)%R /\
       Sorted Z.ge (last :: map projected (series p))).
Proof.
  intros Hlen. eexists. split; [apply computeProjection_value, Hlen|].
  cbv zeta. cbn [annual_growth_rate series].
  pose proof (span_nonneg pts Hlen) as Hspan.
  assert (Hl : (0 <= population_or_0 (latest pts))%Z)
    by apply population_or_0_nonneg.
  rewrite series_values.
  split.
  - intros Hup.
    assert (Hr : (0 <= rate_of pts)%R) by now apply growth_rate_up.
    split; [exact Hr|].
    apply sorted_map_seq. intros k. now apply compounded_up.
  - intros Hdown.
    assert (Hr : (rate_of pts <= 0)%R)
      by (apply growth_rate_down; [lia|exact Hspan]).
    split; [exact Hr|].
    apply sorted_map_seq. intros k. apply Z.le_ge.
    apply compounded_down; auto.
    split; [apply growth_rate_lower|exact Hr].
Qed.

Lemma projection_follows_trend_scenario :
  (2 <= length scenario_trend)%nat /\
  exists p,
    computeProjection (ArgArray scenario_trend) 3 = Some p /\
    (0 <= annual_growth_rate p)%R /\
    Sorted Z.le (96000000%Z :: map projected (series p)).
Proof.
  split; [simpl; lia|].
  destruct (@projection_follows_trend scenario_trend 3)
    as (p & Hp & Hup & _); [simpl; lia|].
  exists p. split; [exact Hp|].
  apply Hup. vm_compute. split; [reflexivity|discriminate].
Defined.

(** X3.  A trend whose latest population equals its earliest projects a
    constant population: the rate is 0 and every projected value is the
    latest population. *)
Theorem projection_flat (pts : list TrendPoint) (N : Z) :
  (2 <= length pts)%nat ->
  population_or_0 (earliest pts) = population_or_0 (latest pts) ->
  exists p,
    computeProjection (ArgArray pts) N = Some p /\
    annual_growth_rate p = 0%R /\
    Forall (fun sp => projected sp = population_or_0 (latest pts))
           (series p).
Proof.
  intros Hlen Hsame. eexists. split; [apply computeProjection_value, Hlen|].
  cbn [annual_growth_rate series].
  assert (Hr : rate_of pts = 0%R).
  { unfold rate_of. rewrite Hsame. apply growth_rate_same. }
  split; [exact Hr|].
  rewrite Forall_map. apply Forall_forall. intros k _. cbn [projected].
  rewrite Hr. apply compounded_flat.
Qed.

(** Two counts of 500 people, ten years apart. *)
Definition flat_trend : list TrendPoint :=
  [ {| census_year := 2019; population := Some 500%N |};
    {| census_year := 2009; population := Some 500%N |} ].

Lemma projection_flat_500 :
  exists p,
    computeProjection (ArgArray flat_trend) 4 = Some p /\
    annual_growth_rate p = 0%R /\
    Forall (fun sp => projected sp = 500%Z) (series p).
Proof.
  apply (@projection_flat flat_trend 4); [simpl; lia|reflexivity].
Defined.

(** X4.  When the points of the trend have pairwise different years, the
    projection does not depend on the order the points come in. *)
Theorem projection_order_independent (pts pts' : list TrendPoint) (N : Z) :
  Permutation pts pts' ->
  NoDup (map census_year pts) ->
  computeProjection (ArgArray pts) N = computeProjection (ArgArray pts') N.
Proof.
  intros Hperm Hnd. unfold computeProjection. cbn [array_of].
  rewrite <- (Permutation_length Hperm).
  rewrite <- (@SortFacts.sort_permutation _ by_census_year
                by_census_year_total by_census_year_trans pts pts' Hperm);
    [reflexivity|].
  intros x. apply (SortFacts.distinct_keys_no_tie census_year x pts Hnd).
Qed.

Lemma projection_order_independent_scenario :
  computeProjection (ArgArray scenario_trend) 3
  = computeProjection (ArgArray (rev scenario_trend)) 3.
Proof.
  apply projection_order_independent.
  - apply perm_swap.
  - repeat constructor; simpl; intuition discriminate.
Defined.

End ProjectionFacts.

(** ** aggregateInternetAccess and summarizeTrend: ranges, ranking, order *)

Module InternetFacts.
Import AiInternet.
Local Open Scope Q_scope.

Lemma aggregate_totals input :
  households (totals (aggregateInternetAccess input))
  == sumQ (map hh_of input) /\
  total_households_with_internet (totals (aggregateInternetAccess input))
  == sumQ (map withNet_of input).
Proof.
  unfold aggregateInternetAccess.
  destruct (map_rows_totals input (0, 0)) as [Hhh Hw].
  destruct (map_rows (0, 0) input) as [[h w] os]. simpl in *.
  rewrite Qplus_0_l in Hhh, Hw. tauto.
Qed.

Lemma aggregate_overall input :
  total_internet_rate_pct (totals (aggregateInternetAccess input))
  = derived_rate (households (totals (aggregateInternetAccess input)))
                 (total_households_with_internet
                    (totals (aggregateInternetAccess input))).
Proof.
  unfold aggregateInternetAccess.
  destruct (map_rows (0, 0) input) as [[h w] os]. reflexivity.
Qed.

Lemma aggregate_rows input :
  rows (aggregateInternetAccess input)
  = map (fun r => snd (rate_row (0, 0) r)) input.
Proof.
  unfold aggregateInternetAccess.
  pose proof (map_rows_rows input (0, 0)) as Hrows.
  destruct (map_rows (0, 0) input) as [[h w] os]. exact Hrows.
Qed.

(** Sums of the counts, under a bound that holds row by row. *)
Lemma sums_bounded (lo hi : Q) input :
  (forall r, In r input ->
             0 <= hh_of r /\
             lo * hh_of r <= 100 * withNet_of r <= hi * hh_of r) ->
  0 <= sumQ (map hh_of input) /\
  lo * sumQ (map hh_of input) <= 100 * sumQ (map withNet_of input)
  <= hi * sumQ (map hh_of input).
Proof.
  induction input as [|r rs IH]; simpl; intros H.
  - lra.
  - destruct (H r (or_introl eq_refl)) as (H0 & H1 & H2).
    destruct IH as (I0 & I1 & I2); [intros r' Hr'; apply H; auto|].
    lra.
Qed.

Lemma derived_rate_between (lo hi hh w : Q) :
  0 <= hh -> lo * hh <= 100 * w <= hi * hh ->
  (0 < hh \/ lo <= 0 <= hi) ->
  lo <= derived_rate hh w <= hi.
Proof.
  intros H0 [H1 H2] Hcase. unfold derived_rate.
  destruct (Qeq_bool hh 0) eqn:E.
  - apply Qeq_bool_iff in E. destruct Hcase as [Hpos|Hz]; lra.
  - apply Qeq_bool_neq in E.
    assert (Hpos : 0 < hh) by lra.
    assert (Eq : w / hh * 100 == (100 * w) / hh) by (field; lra).
    rewrite Eq. split.
    + apply Qle_shift_div_l; auto.
    + apply Qle_shift_div_r; auto.
Qed.



Lemma aggregate_rankings input :
  top5 (aggregateInternetAccess input)
  = firstn 5 (JsSort.sort by_rate_desc (rows (aggregateInternetAccess input)))
  /\
  bottom5 (aggregateInternetAccess input)
  = firstn 5 (JsSort.sort by_rate_asc (rows (aggregateInternetAccess input))).
Proof.
  unfold aggregateInternetAccess.
  destruct (map_rows (0, 0) input) as [[h w] os]. split; reflexivity.
Qed.

Lemma sorted_app_all (A : Type) (R : A -> A -> Prop) (a b : list A) :
  StronglySorted R (a ++ b) ->
  forall x y, In x a -> In y b -> R x y.
Proof.
  induction a as [|z a IH]; simpl; intros Hs x y Hx Hy; [tauto|].
  inversion Hs as [|? ? Hs' Hz]; subst.
  destruct Hx as [<-|Hx].
  - rewrite Forall_forall in Hz. apply Hz. apply in_or_app. auto.
  - now apply IH.
Qed.

(** The first [n] rows of a sorted array, against the rows left out. *)
Lemma first_rows_lead (leb : RatedRow -> RatedRow -> bool) (n : nat) l :
  (forall a b, leb a b = true \/ leb b a = true) ->
  (forall a b c, leb a b = true -> leb b c = true -> leb a c = true) ->
  length (firstn n (JsSort.sort leb l)) = Nat.min n (length l) /\
  exists rest,
    Permutation l (firstn n (JsSort.sort leb l) ++ rest) /\
    forall t r, In t (firstn n (JsSort.sort leb l)) -> In r rest ->
                leb t r = true.
Proof.
  intros Htotal Htrans. split.
  - now rewrite length_firstn, JsSort.sort_length.
  - exists (skipn n (JsSort.sort leb l)). split.
    + rewrite firstn_skipn. apply JsSort.sort_perm.
    + apply sorted_app_all. rewrite firstn_skipn.
      now apply JsSort.sort_sorted.
Qed.

(** X6.  [top5] and [bottom5] hold 5 rows, or all rows when there are
    fewer; no row left out of [top5] has a higher rate than a row in it,
    and no row left out of [bottom5] has a lower rate than a row in
    it. *)
Theorem top5_bottom5_extremes (input : list AccessRow) :
  let agg := aggregateInternetAccess input in
  length (top5 agg) = Nat.min 5 (length input) /\
  length (bottom5 agg) = Nat.min 5 (length input) /\
  (exists rest,
     Permutation (rows agg) (top5 agg ++ rest) /\
     forall t r, In t (top5 agg) -> In r rest ->
                 rated_internet_rate_pct r <= rated_internet_rate_pct t) /\
  (exists rest,
     Permutation (rows agg) (bottom5 agg ++ rest) /\
     forall b r, In b (bottom5 agg) -> In r rest ->
                 rated_internet_rate_pct b <= rated_internet_rate_pct r).
Proof.
  cbv zeta.
  destruct (aggregate_rankings input) as [-> ->].
  assert (Hlen : length (rows (aggregateInternetAccess input)) = length input)
    by (rewrite aggregate_rows; apply length_map).
  destruct (@first_rows_lead by_rate_desc 5
              (rows (aggregateInternetAccess input))
              by_rate_desc_total by_rate_desc_trans)
    as [Hn1 [rest1 [Hp1 Hr1]]].
  destruct (@first_rows_lead by_rate_asc 5
              (rows (aggregateInternetAccess input))
              by_rate_asc_total by_rate_asc_trans)
    as [Hn2 [rest2 [Hp2 Hr2]]].
  rewrite Hlen in Hn1, Hn2.
  split; [exact Hn1|]. split; [exact Hn2|]. split.
  - exists rest1. split; [exact Hp1|].
    intros t r Ht Hr. apply by_rate_desc_le. now apply Hr1.
  - exists rest2. split; [exact Hp2|].
    intros b r Hb Hr. apply by_rate_asc_le. now apply Hr2.
Qed.

(** X7.  Rates are percentages.  When every row has between 0 and
    [household_count] connected households and no supplied rate above
    100, every row's rate and the overall rate lie between 0 and 100. *)
Theorem rates_are_percentages (input : list AccessRow) :
  (forall r, In r input ->
             0 <= withNet_of r <= hh_of r /\
             forall q, internet_rate_pct r = JsNum.Fin q -> q <= 100) ->
  Forall (fun o => 0 <= rated_internet_rate_pct o <= 100)
         (rows (aggregateInternetAccess input)) /\
  0 <= total_internet_rate_pct (totals (aggregateInternetAccess input))
  <= 100.
Proof.
  intros Hrows. split.
  - rewrite aggregate_rows, Forall_map. apply Forall_forall.
    intros r Hr. destruct (Hrows r Hr) as [[Hw Hh] Hq]. simpl.
    fold (hh_of r) (withNet_of r).
    assert (Hd : 0 <= derived_rate (hh_of r) (withNet_of r) <= 100).
    { apply derived_rate_between; lra. }
    unfold row_rate. destruct (internet_rate_pct r) as [| | |q]; auto.
    destruct (Qle_bool q 0) eqn:E; auto.
    apply Qle_bool_false in E. specialize (Hq q eq_refl). lra.
  - destruct (@sums_bounded 0 100 input) as (H0 & H1 & H2).
    { intros r Hr. destruct (Hrows r Hr) as [[Hw Hh] _]. lra. }
    destruct (aggregate_totals input) as [Hhh Hwn].
    rewrite aggregate_overall.
    apply derived_rate_between.
    + now rewrite Hhh.
    + rewrite Hhh, Hwn. tauto.
    + right. lra.
Qed.

Lemma rates_are_percentages_scenario :
  Forall (fun o => 0 <= rated_internet_rate_pct o <= 100)
         (rows (aggregateInternetAccess scenario_rows)) /\
  0 <= total_internet_rate_pct (totals (aggregateInternetAccess scenario_rows))
  <= 100.
Proof.
  apply rates_are_percentages.
  intros r [<-|[<-|[]]]; (split; [vm_compute; split; discriminate|]);
    intros q Hq; discriminate.
Defined.

(** X8.  When the points of the trend have pairwise different years, the
    trend summary does not depend on the order the points come in. *)
Theorem summarizeTrend_order_independent (pts pts' : list TrendRow) :
  Permutation pts pts' ->
  NoDup (map census_year pts) ->
  summarizeTrend (ArgArray pts) = summarizeTrend (ArgArray pts').
Proof.
  intros Hperm Hnd. unfold summarizeTrend. cbn [array_of].
  rewrite <- (Permutation_length Hperm).
  rewrite <- (@SortFacts.sort_permutation _ by_census_year
                trend_by_census_year_total trend_by_census_year_trans
                pts pts' Hperm);
    [reflexivity|].
  intros x. apply (SortFacts.distinct_keys_no_tie census_year x pts Hnd).
Qed.

Lemma summarizeTrend_order_independent_two_points :
  summarizeTrend (ArgArray (trend_from_to 50 56))
  = summarizeTrend (ArgArray (rev (trend_from_to 50 56))).
Proof.
  apply summarizeTrend_order_independent.
  - apply perm_swap.
  - repeat constructor; simpl; intuition discriminate.
Defined.

(** The label of the opposite change. *)
Definition opposite (label : string) : string :=
  if String.eqb label strong_increase then strong_decrease
  else if String.eqb label mild_increase then mild_decrease
  else if String.eqb label strong_decrease then strong_increase
  else if String.eqb label mild_decrease then mild_increase
  else label.

(** X9.  The thresholds are symmetric: going from rate [b] to rate [a]
    is labelled the opposite of going from [a] to [b]. *)
Theorem classify_opposite (a b : JsNum.t) :
  classify (JsNum.sub a b) = opposite (classify (JsNum.sub b a)).
Proof.
  destruct a as [| | |p], b as [| | |q]; try reflexivity.
  unfold classify. simpl.
  destruct (Qle_bool (p - q) 5) eqn:E1, (Qle_bool (p - q) 1) eqn:E2,
           (Qle_bool (-5) (p - q)) eqn:E3, (Qle_bool (-1) (p - q)) eqn:E4,
           (Qle_bool (q - p) 5) eqn:F1, (Qle_bool (q - p) 1) eqn:F2,
           (Qle_bool (-5) (q - p)) eqn:F3, (Qle_bool (-1) (q - p)) eqn:F4;
    simpl; try reflexivity; exfalso;
    repeat match goal with
           | H : Qle_bool _ _ = true |- _ => apply Qle_bool_iff in H
           | H : Qle_bool _ _ = false |- _ => apply Qle_bool_false in H
           end; lra.
Qed.

End InternetFacts.

(** ** aggregateUrbanRural: household shares and ranges *)

Module UrbanRuralFacts.
Import AiUrbanRural.
Local Open Scope Q_scope.








Lemma sum_filter_bounds (f : Row -> Q) (g : Row -> bool) rows :
  (forall r, In r rows -> 0 <= f r) ->
  0 <= sumQ (map f (filter g rows)) <= sumQ (map f rows).
Proof.
  induction rows as [|r rs IH]; simpl; intros H; [lra|].
  pose proof (H r (or_introl eq_refl)) as Hr.
  destruct IH as [I1 I2]; [intros r' Hr'; apply H; auto|].
  destruct (g r); simpl; lra.
Qed.

Lemma share_range (part total : Q) :
  0 <= part <= total ->
  0 <= (if Qeq_bool total 0 then 0 else (part / total) * 100) <= 100.
Proof.
  intros [H0 H1]. destruct (Qeq_bool total 0) eqn:E; [lra|].
  apply Qeq_bool_neq in E. assert (Hpos : 0 < total) by lra.
  assert (Eq : part / total * 100 == (100 * part) / total) by (field; lra).
  rewrite Eq. split.
  - apply Qle_shift_div_l; auto. lra.
  - apply Qle_shift_div_r; auto. lra.
Qed.

(** X11.  Shares are percentages: when no row has a negative population
    or household count, every [population_percent] and
    [household_percent] lies between 0 and 100. *)
Theorem shares_are_percentages (rows : list Row) :
  (forall r, In r rows -> 0 <= pop_of r /\ 0 <= hh_of r) ->
  Forall (fun i => 0 <= population_percent i <= 100 /\
                   0 <= household_percent i <= 100)
         (items (aggregateUrbanRural rows)).
Proof.
  intros Hrows. unfold aggregateUrbanRural.
  pose proof (invariant_loop rows) as Hinv.
  destruct (fold_left add_row rows ([], 0, 0)) as [[groups totalPop] totalHH].
  destruct Hinv as (_ & _ & Hsums & Hpop & Hhh & _).
  cbn [items]. rewrite Forall_map.
  revert Hsums. apply Forall_impl. intros g [Hgp Hgh]. simpl.
  split; apply share_range.
  - rewrite Hgp, Hpop. apply sum_filter_bounds.
    intros r Hr. now apply Hrows.
  - rewrite Hgh, Hhh. apply sum_filter_bounds.
    intros r Hr. now apply Hrows.
Qed.

Lemma shares_are_percentages_sample :
  Forall (fun i => 0 <= population_percent i <= 100 /\
                   0 <= household_percent i <= 100)
         (items (aggregateUrbanRural sample_rows)).
Proof.
  apply shares_are_percentages.
  intros r [<-|[<-|[<-|[<-|[]]]]]; vm_compute; split; discriminate.
Defined.

End UrbanRuralFacts.

(* ================================================================== *)
(** * routes/chatbot.js: detectTopic, detectProvince and the route *)
(* ================================================================== *)

Module ChatbotRoute.
Import Json ReportReply.

(** ** String.prototype.includes *)

(** [hay.includes(needle)] *)
Fixpoint includes (hay needle : string) : bool :=
  String.prefix needle hay
  || match hay with
     | EmptyString => false
     | String _ rest => includes rest needle
     end.

(** [needle] occurs somewhere in [hay]. *)
Definition occurs_in (needle hay : string) : Prop :=
  exists before after, hay = (before ++ needle ++ after)%string.

Lemma prefix_split needle : forall hay,
  String.prefix needle hay = true <->
  exists after, hay = (needle ++ after)%string.
Proof.
  induction needle as [|c needle IH]; intros hay.
  - split; [intros _; exists hay; reflexivity|intros _; now destruct hay].
  - destruct hay as [|d hay]; simpl.
    + split; [discriminate|intros [after H]; discriminate].
    + destruct (Ascii.ascii_dec c d) as [->|Hne].
      * rewrite IH. split; intros [after H]; exists after; congruence.
      * split; [discriminate|intros [after H]; congruence].
Qed.

Lemma includes_occurs hay : forall needle,
  includes hay needle = true <-> occurs_in needle hay.
Proof.
  induction hay as [|c hay IH]; intros needle; cbn [includes].
  - rewrite orb_false_r, prefix_split. split.
    + intros [after H]. exists EmptyString, after. exact H.
    + intros [before [after H]]. destruct before; [now exists after|].
      discriminate.
  - rewrite orb_true_iff, prefix_split, IH. split.
    + intros [[after H]|[before [after H]]].
      * exists EmptyString, after. exact H.
      * exists (String c before), after. simpl. now rewrite H.
    + intros [before [after H]]. destruct before as [|d before].
      * left. now exists after.
      * right. exists before, after. simpl in H. congruence.
Qed.

Section Chatbot.

(** [String.prototype.toLowerCase] *)
Variable toLowerCase : string -> string.

(** [s.toLowerCase().normalize('NFD')] with the combining marks U+0300 to
    U+036F removed: lower case, without diacritics. *)
Variable fold_diacritics : string -> string.

(** ** detectTopic *)

Definition detectTopic (text : string) : DatasetProvider.Topic :=
  let t := toLowerCase text in
  if includes t "internet" || includes t "mạng" || includes t "kết nối"
  then DatasetProvider.Internet
  else if includes t "thành thị" || includes t "đô thị"
          || includes t "nông thôn" || includes t "urban"
          || includes t "rural"
  then DatasetProvider.UrbanRural
  else DatasetProvider.Population.

(** The value of [topic] in the response. *)
Definition topic_name (topic : DatasetProvider.Topic) : string :=
  match topic with
  | DatasetProvider.Internet => "internet"
  | DatasetProvider.UrbanRural => "urban_rural"
  | DatasetProvider.Population => "population"
  end.

Definition internet_words : list string :=
  ["internet"; "mạng"; "kết nối"]%string.
Definition urban_rural_words : list string :=
  ["thành thị"; "đô thị"; "nông thôn"; "urban"; "rural"]%string.

(** ** detectProvince *)

Record Province : Type := {
  code : string;
  alias : list string
}.

Definition PROVINCES : list Province :=
  [ {| code := "01"; alias := ["hà nội"; "ha noi"; "hanoi"; "hn"] |};
    {| code := "79";
       alias := ["hồ chí minh"; "ho chi minh"; "hcm"; "sài gòn"; "sai gon"] |};
    {| code := "48"; alias := ["đà nẵng"; "da nang"; "danang"] |};
    {| code := "31"; alias := ["hải phòng"; "hai phong"; "haiphong"] |};
    {| code := "92"; alias := ["cần thơ"; "can tho"; "cantho"] |} ]%string.

(** The inner loop: some alias of the entry, folded, is in [t]. *)
Definition alias_found (t : string) (p : Province) : bool :=
  existsb (fun a => includes t (fold_diacritics a)) (alias p).

(** The outer loop over a table of provinces. *)
Fixpoint first_province (t : string) (table : list Province)
  : option string :=
  match table with
  | [] => None
  | p :: rest =>
      if alias_found t p then Some (code p) else first_province t rest
  end.

Definition detectProvince (text : string) : option string :=
  first_province (fold_diacritics text) PROVINCES.

(** ** Properties of the two detectors *)

Lemma any_word (t : string) (words : list string) :
  existsb (includes t) words = true <->
  exists w, In w words /\ occurs_in w t.
Proof.
  rewrite existsb_exists.
  split; intros [w [Hin H]]; exists w; split; auto;
    now apply includes_occurs.
Qed.

Lemma detectTopic_existsb text :
  detectTopic text
  = if existsb (includes (toLowerCase text)) internet_words
    then DatasetProvider.Internet
    else if existsb (includes (toLowerCase text)) urban_rural_words
    then DatasetProvider.UrbanRural
    else DatasetProvider.Population.
Proof.
  unfold detectTopic. cbn [existsb internet_words urban_rural_words].
  rewrite !orb_false_r, !orb_assoc. reflexivity.
Qed.

(** X12.  [detectTopic] looks for keywords in the lower-cased text: any
    of the internet words gives the internet topic, also when urban or
    rural words occur as well; failing those, any of the urban/rural words
    gives the urban/rural topic; a text with none of the eight words gets
    the population topic. *)
Theorem detectTopic_by_keywords (text : string) :
  ((exists w, In w internet_words /\ occurs_in w (toLowerCase text)) ->
   detectTopic text = DatasetProvider.Internet) /\
  ((forall w, In w internet_words -> ~ occurs_in w (toLowerCase text)) ->
   (exists w, In w urban_rural_words /\ occurs_in w (toLowerCase text)) ->
   detectTopic text = DatasetProvider.UrbanRural) /\
  ((forall w, In w (internet_words ++ urban_rural_words) ->
              ~ occurs_in w (toLowerCase text)) ->
   detectTopic text = DatasetProvider.Population).
Proof.
  rewrite detectTopic_existsb.
  destruct (existsb (includes (toLowerCase text)) internet_words) eqn:E1;
    destruct (existsb (includes (toLowerCase text)) urban_rural_words) eqn:E2;
    repeat split; intros; try reflexivity; exfalso;
    try (apply any_word in E1; destruct E1 as [w [Hin Hocc]];
         match goal with
         | H : forall w, In w internet_words -> _ |- _ =>
             exact (H w Hin Hocc)
         | H : forall w, In w (internet_words ++ _) -> _ |- _ =>
             exact (H w (in_or_app _ _ _ (or_introl Hin)) Hocc)
         end);
    try (apply any_word in E2; destruct E2 as [w [Hin Hocc]];
         match goal with
         | H : forall w, In w (_ ++ urban_rural_words) -> _ |- _ =>
             exact (H w (in_or_app _ _ _ (or_intror Hin)) Hocc)
         end);
    try (match goal with
         | H : exists w, In w internet_words /\ _ |- _ =>
             apply any_word in H; congruence
         | H : exists w, In w urban_rural_words /\ _ |- _ =>
             apply any_word in H; congruence
         end).
Qed.

Lemma alias_found_occurs t p :
  alias_found t p = true <->
  exists a, In a (alias p) /\ occurs_in (fold_diacritics a) t.
Proof.
  unfold alias_found. rewrite existsb_exists.
  split; intros [a [Hin H]]; exists a; split; auto;
    now apply includes_occurs.
Qed.

Lemma first_province_spec t table :
  match first_province t table with
  | Some c =>
      exists before p after a,
        table = before ++ p :: after /\
        c = code p /\
        In a (alias p) /\ occurs_in (fold_diacritics a) t /\
        forall q b, In q before -> In b (alias q) ->
                    ~ occurs_in (fold_diacritics b) t
  | None =>
      forall q b, In q table -> In b (alias q) ->
                  ~ occurs_in (fold_diacritics b) t
  end.
Proof.
  induction table as [|p rest IH]; cbn [first_province].
  - intros q b [].
  - destruct (alias_found t p) eqn:E.
    + apply alias_found_occurs in E. destruct E as [a [Hin Hocc]].
      exists [], p, rest, a. repeat split; auto.
    + assert (Hnone : forall b, In b (alias p) ->
                                ~ occurs_in (fold_diacritics b) t).
      { intros b Hb Hocc.
        assert (H : alias_found t p = true)
          by (apply alias_found_occurs; eauto).
        congruence. }
      destruct (first_province t rest) as [c|].
      * destruct IH as (before & p' & after & a & -> & Hc & Hin & Hocc & Hb).
        exists (p :: before), p', after, a. repeat split; auto.
        intros q b [<-|Hq] Hbq; [now apply Hnone|now apply (Hb q)].
      * intros q b [<-|Hq] Hbq; [now apply Hnone|now apply (IH q)].
Qed.

(** X13.  [detectProvince] returns the code of the first entry of
    [PROVINCES], in table order, one of whose aliases occurs in the text
    (both lower-cased and stripped of diacritics), wherever in the text the
    aliases stand; it returns [null] exactly when no alias of any entry
    occurs. *)
Theorem detectProvince_first_entry (text : string) :
  match detectProvince text with
  | Some c =>
      exists before p after a,
        PROVINCES = before ++ p :: after /\
        c = code p /\
        In a (alias p) /\
        occurs_in (fold_diacritics a) (fold_diacritics text) /\
        forall q b, In q before -> In b (alias q) ->
                    ~ occurs_in (fold_diacritics b) (fold_diacritics text)
  | None =>
      forall q b, In q PROVINCES -> In b (alias q) ->
                  ~ occurs_in (fold_diacritics b) (fold_diacritics text)
  end.
Proof. apply first_province_spec. Qed.

End Chatbot.

(** A question about the network in towns, with the identity standing for
    the lower-casing of a text already in lower case. *)
Lemma detectTopic_by_keywords_sample :
  detectTopic (fun s => s) "ty le internet o do thi va urban"
  = DatasetProvider.Internet.
Proof.
  apply (proj1 (detectTopic_by_keywords (fun s => s)
                  "ty le internet o do thi va urban")).
  exists "internet"%string. split; [simpl; auto|].
  exists "ty le "%string, " o do thi va urban"%string. reflexivity.
Defined.

(** Da Nang is named before Hanoi, yet the entry of Hanoi comes first in
    the table. *)
Lemma detectProvince_table_order :
  detectProvince (fun s => s) "so sanh da nang voi ha noi" = Some "01"%string.
Proof. vm_compute. reflexivity. Qed.

(** ** POST /api/chatbot (routes/chatbot.js, lines 36-114) *)

(** A message of the conversation, [{ role, content }]; [content] may be
    missing. *)
Record Message : Type := {
  role : string;
  content : option string
}.

(** [[...messages].reverse().find(m => m.role === 'user')] *)
Definition lastUser (messages : list Message) : option Message :=
  find (fun m => String.eqb (role m) "user") (rev messages).

(** How [openai.chat.completions.create] ends: it throws, or it returns a
    completion of which [reply] is [choices[0]?.message?.content], [None]
    when there is none. *)
Inductive Completion : Type :=
| CompletionThrows
| CompletionReturns (reply : option string).

(** What the route does besides answering. *)
Inductive Event : Type :=
| Fetched (e : DatasetProvider.Endpoint)
| Asked (gptMessages : list Message).

Definition newline : string := String (ascii_of_nat 10) EmptyString.

Definition system_instruction : string :=
  ("Bạn là trợ lý phân tích dữ liệu dân số Việt Nam. "
   ++ "Nhiệm vụ của bạn gồm hai phần:"
   ++ newline
   ++ "1) Trả lời dựa trên dữ liệu JSON được cung cấp từ hệ thống VietCensus."
   ++ newline
   ++ "2) Khi người dùng hỏi về chính sách, giải pháp, hoặc gợi ý cải thiện (ví dụ: mất cân bằng giới tính, tăng kết nối Internet, nâng cao dân trí, đô thị hoá...), bạn phải đưa ra các chính sách khả thi, phù hợp bối cảnh Việt Nam, dựa trên kiến thức thực tế (giáo dục, kinh tế, xã hội, hạ tầng). "
   ++ newline
   ++ "Các gợi ý có thể bao gồm: chính sách nhà nước, khuyến nghị phát triển, chính sách dân số – kế hoạch hoá gia đình, đầu tư hạ tầng, chuyển đổi số, thúc đẩy bình đẳng giới, giảm bất bình đẳng vùng miền..."
   ++ newline
   ++ "Hãy trả lời ngắn gọn (5–8 câu), dễ hiểu cho người không chuyên. "
   ++ newline
   ++ "Nếu dữ liệu VietCensus không đủ để trả lời một phần, hãy kết hợp kiến thức chung và giải thích rõ.")%string.

Definition apology : string := "Xin lỗi, tôi chưa có câu trả lời phù hợp.".

Section Route.

Variable toLowerCase : string -> string.
Variable fold_diacritics : string -> string.

(** [String.prototype.trim] *)
Variable trim : string -> string.

(** A parsed response body of a read endpoint. *)
Variable Body : Type.

(** The network: the outcome of fetching an endpoint for a year and a
    province. *)
Variable fetch :
  Z -> option string -> DatasetProvider.Endpoint ->
  DatasetProvider.FetchOutcome Body.

Variable buildAnswerPrompt :
  string -> DatasetProvider.Topic -> Z -> list (string * Body) ->
  option string -> string.

(** The completion service, asked with the messages. *)
Variable complete : list Message -> Completion.

(** [String(lastUser.content || '')] *)
Definition question_of (m : Message) : string :=
  match content m with
  | Some c => c
  | None => EmptyString
  end.

(** [content?.trim() || 'Xin lỗi, ...'] *)
Definition reply_of (reply : option string) : string :=
  match reply with
  | Some c => if String.eqb (trim c) "" then apology else trim c
  | None => apology
  end.

(** The events of the route, in order, and its response. *)
Definition chatbot (messages : list Message) : list Event * Response :=
  match lastUser messages with
  | None => ([], Failure 400 "No user message provided")
  | Some last =>
      let question := question_of last in
      let year := Chatbot.detectYear question 2024 in
      let topic := detectTopic toLowerCase question in
      let province := detectProvince fold_diacritics question in
      let '(issued, loaded) :=
        DatasetProvider.loadDatasetsForTopic (fetch year province) topic in
      match loaded with
      | None => (map Fetched issued, Failure 500 "Chatbot backend error")
      | Some datasets =>
          let prompt :=
            buildAnswerPrompt question topic year datasets province in
          let gptMessages :=
            [ {| role := "system"; content := Some system_instruction |};
              {| role := "user"; content := Some prompt |} ]
            ++ map (fun m => {| role := role m; content := content m |})
                   messages in
          let events := map Fetched issued ++ [Asked gptMessages] in
          match complete gptMessages with
          | CompletionThrows =>
              (events, Failure 500 "Chatbot backend error")
          | CompletionReturns reply =>
              (events,
               Success (JObject [ ("reply", JString (reply_of reply));
                                  ("topic", JString (topic_name topic));
                                  ("year", JNumber (inject_Z year)) ]%string))
          end
      end
  end.

(** ** Properties of the route *)

Lemma find_skips (A : Type) (f : A -> bool) (l1 l2 : list A) :
  (forall x, In x l1 -> f x = false) -> find f (l1 ++ l2) = find f l2.
Proof.
  induction l1 as [|a l1 IH]; simpl; intros H; auto.
  rewrite (H a (or_introl eq_refl)). apply IH. auto.
Qed.

Lemma lastUser_none messages :
  (forall x, In x messages -> role x <> "user"%string) ->
  lastUser messages = None.
Proof.
  intros H. unfold lastUser.
  rewrite <- (app_nil_r (rev messages)), find_skips; [reflexivity|].
  intros x Hx. apply in_rev in Hx. apply String.eqb_neq. now apply H.
Qed.

Lemma lastUser_some before m after :
  role m = "user"%string ->
  (forall x, In x after -> role x <> "user"%string) ->
  lastUser (before ++ m :: after) = Some m.
Proof.
  intros Hm Hafter. unfold lastUser.
  rewrite rev_app_distr. simpl. rewrite <- app_assoc, find_skips.
  - simpl. now rewrite Hm.
  - intros x Hx. apply in_rev in Hx. apply String.eqb_neq. now apply Hafter.
Qed.

(** X14.  The question answered is the latest user message: of a
    conversation [before ++ m :: after] in which [m] is a user message
    and [after] holds none, [lastUser] is [m], whatever user messages
    [before] holds; a conversation without user messages has none. *)
Theorem lastUser_is_latest (messages : list Message) :
  (forall before m after,
     messages = before ++ m :: after ->
     role m = "user"%string ->
     (forall x, In x after -> role x <> "user"%string) ->
     lastUser messages = Some m) /\
  ((forall x, In x messages -> role x <> "user"%string) ->
   lastUser messages = None).
Proof.
  split.
  - intros before m after -> Hm Hafter. now apply lastUser_some.
  - apply lastUser_none.
Qed.

(** X15.  A conversation without a user message is answered 400 before
    anything is fetched or asked; a conversation with one is never
    answered 400. *)
Theorem chatbot_needs_user_message (messages : list Message) :
  ((forall x, In x messages -> role x <> "user"%string) ->
   chatbot messages = ([], Failure 400 "No user message provided")) /\
  ((exists x, In x messages /\ role x = "user"%string) ->
   forall error, snd (chatbot messages) <> Failure 400 error).
Proof.
  split.
  - intros H. unfold chatbot. now rewrite lastUser_none.
  - intros [x [Hin Hx]] error. unfold chatbot.
    destruct (lastUser messages) as [last|] eqn:E.
    + destruct (DatasetProvider.loadDatasetsForTopic _ _) as [issued [d|]];
        [|simpl; discriminate].
      destruct (complete _); simpl; discriminate.
    + exfalso. unfold lastUser in E.
      assert (Hx' : String.eqb (role x) "user" = false)
        by (apply (find_none _ _ E x); now apply -> in_rev).
      apply String.eqb_neq in Hx'. contradiction.
Qed.

Lemma fetch_in_turn_fails (f : DatasetProvider.Endpoint ->
                               DatasetProvider.FetchOutcome Body) l :
  (exists n e, In (n, e) l /\ DatasetProvider.fetchJson f e = None) ->
  snd (DatasetProvider.fetch_in_turn f l) = None.
Proof.
  induction l as [|[n e] l IH]; simpl; intros [n' [e' [Hin Hfail]]]; [tauto|].
  destruct (DatasetProvider.fetchJson f e) as [v|] eqn:E; [|reflexivity].
  destruct Hin as [Heq|Hin]; [congruence|].
  specialize (IH (ex_intro _ n' (ex_intro _ e' (conj Hin Hfail)))).
  destruct (DatasetProvider.fetch_in_turn f l) as [issued datasets].
  simpl in *. now rewrite IH.
Qed.

(** The run of the route on a conversation whose latest user message is
    [last]. *)
Definition year_of (last : Message) : Z :=
  Chatbot.detectYear (question_of last) 2024.
Definition topic_of (last : Message) : DatasetProvider.Topic :=
  detectTopic toLowerCase (question_of last).
Definition province_of (last : Message) : option string :=
  detectProvince fold_diacritics (question_of last).

Definition not_asked (ev : Event) : Prop :=
  match ev with
  | Asked _ => False
  | Fetched _ => True
  end.

(** X16.  When a dataset of the detected topic cannot be fetched, the
    route answers 500 and the completion service is never asked. *)
Theorem chatbot_fetch_failure (messages : list Message) (last : Message) :
  lastUser messages = Some last ->
  (exists n e,
     In (n, e) (DatasetProvider.datasets_of (topic_of last)) /\
     DatasetProvider.fetchJson (fetch (year_of last) (province_of last)) e
     = None) ->
  snd (chatbot messages) = Failure 500 "Chatbot backend error" /\
  Forall not_asked (fst (chatbot messages)).
Proof.
  intros Hlast Hfail. unfold chatbot. rewrite Hlast.
  fold (year_of last) (topic_of last) (province_of last).
  pose proof (fetch_in_turn_fails _ _ Hfail) as Hnone.
  rewrite <- DatasetProvider.loadDatasetsForTopic_in_turn in Hnone.
  destruct (DatasetProvider.loadDatasetsForTopic _ _) as [issued loaded].
  simpl in Hnone. subst loaded. simpl. split; [reflexivity|].
  rewrite Forall_map. apply Forall_forall. intros e _. exact I.
Qed.

(** [gptMessages]: the system instruction, the prompt, then the
    conversation as it came. *)
Definition gptMessages_of (messages : list Message) (last : Message)
           (datasets : list (string * Body)) : list Message :=
  {| role := "system"; content := Some system_instruction |}
    :: {| role := "user";
          content := Some (buildAnswerPrompt (question_of last)
                             (topic_of last) (year_of last) datasets
                             (province_of last)) |}
    :: messages.

(** X17.  When every dataset of the detected topic is fetched and the
    completion service returns, the datasets are fetched in the order of
    the topic, the service is asked once, with the system instruction, the
    prompt and then the whole conversation, and the answer carries the
    detected topic and year with a reply that is never empty: the trimmed
    text of the completion, or the apology when that is missing or
    blank. *)
Theorem chatbot_answers (messages : list Message) (last : Message)
        (reply : option string) :
  lastUser messages = Some last ->
  (forall n e, In (n, e) (DatasetProvider.datasets_of (topic_of last)) ->
     DatasetProvider.fetchJson (fetch (year_of last) (province_of last)) e
     <> None) ->
  (forall datasets,
     complete (gptMessages_of messages last datasets)
     = CompletionReturns reply) ->
  exists datasets,
    snd (DatasetProvider.loadDatasetsForTopic
           (fetch (year_of last) (province_of last)) (topic_of last))
    = Some datasets /\
    chatbot messages
    = (map Fetched (map snd (DatasetProvider.datasets_of (topic_of last)))
         ++ [Asked (gptMessages_of messages last datasets)],
       Success (JObject [ ("reply", JString (reply_of reply));
                          ("topic", JString (topic_name (topic_of last)));
                          ("year", JNumber (inject_Z (year_of last))) ]%string))
    /\
    reply_of reply <> EmptyString /\
    (reply_of reply = apology \/
     exists c, reply = Some c /\ reply_of reply = trim c).
Proof.
  intros Hlast Hok Hcomplete.
  destruct (DatasetProvider.fetch_in_turn_all_ok _ _ Hok)
    as [datasets [Hload _]].
  rewrite <- DatasetProvider.loadDatasetsForTopic_in_turn in Hload.
  exists datasets. split; [now rewrite Hload|]. split; [|split].
  - unfold chatbot. rewrite Hlast.
    fold (year_of last) (topic_of last) (province_of last).
    rewrite Hload.
    replace (map (fun m => {| role := role m; content := content m |})
                 messages) with messages
      by (rewrite <- (map_id messages) at 1; apply map_ext; now intros [r c]).
    cbv zeta. cbn [app].
    fold (gptMessages_of messages last datasets).
    now rewrite Hcomplete.
  - unfold reply_of. destruct reply as [c|]; [|discriminate].
    destruct (String.eqb_spec (trim c) ""); [discriminate|assumption].
  - unfold reply_of. destruct reply as [c|]; [|now left].
    destruct (String.eqb (trim c) ""); [now left|right; eauto].
Qed.

End Route.

(** A conversation of three messages, the last of which is the
    assistant's. *)
Definition sample_conversation : list Message :=
  [ {| role := "user"; content := Some "dan so ha noi nam 2019" |};
    {| role := "user"; content := Some "ty le internet nam 2024" |};
    {| role := "assistant"; content := Some "..." |} ]%string.

Definition sample_question : Message :=
  {| role := "user"; content := Some "ty le internet nam 2024"%string |}.

Lemma lastUser_is_latest_sample :
  lastUser sample_conversation = Some sample_question.
Proof.
  apply (proj1 (lastUser_is_latest sample_conversation)
               [ {| role := "user";
                    content := Some "dan so ha noi nam 2019"%string |} ]
               sample_question
               [ {| role := "assistant"; content := Some "..."%string |} ]);
    try reflexivity.
  intros x [<-|[]]. discriminate.
Defined.

(** A network where every endpoint answers with the body 1, and one where
    the internet trend is unavailable. *)
Definition all_available (_ : Z) (_ : option string)
           (_ : DatasetProvider.Endpoint) : DatasetProvider.FetchOutcome nat :=
  DatasetProvider.Responded true (Some 1%nat).

Definition trend_down (_ : Z) (_ : option string)
           (e : DatasetProvider.Endpoint) : DatasetProvider.FetchOutcome nat :=
  match e with
  | DatasetProvider.InternetTrend => DatasetProvider.Responded false None
  | _ => DatasetProvider.Responded true (Some 1%nat)
  end.

Lemma chatbot_needs_user_message_sample :
  chatbot (fun s => s) (fun s => s) (fun s => s) all_available
          (fun _ _ _ _ _ => "PROMPT"%string)
          (fun _ => CompletionReturns (Some "ok"%string))
          [ {| role := "assistant"; content := Some "..."%string |} ]
  = ([], Failure 400 "No user message provided").
Proof.
  apply chatbot_needs_user_message.
  intros x [<-|[]]. discriminate.
Defined.

Lemma chatbot_fetch_failure_sample :
  snd (chatbot (fun s => s) (fun s => s) (fun s => s) trend_down
               (fun _ _ _ _ _ => "PROMPT"%string)
               (fun _ => CompletionReturns (Some "ok"%string))
               sample_conversation)
  = Failure 500 "Chatbot backend error" /\
  Forall not_asked
         (fst (chatbot (fun s => s) (fun s => s) (fun s => s) trend_down
                       (fun _ _ _ _ _ => "PROMPT"%string)
                       (fun _ => CompletionReturns (Some "ok"%string))
                       sample_conversation)).
Proof.
  apply (@chatbot_fetch_failure (fun s => s) (fun s => s) (fun s => s) nat
           trend_down (fun _ _ _ _ _ => "PROMPT"%string)
           (fun _ => CompletionReturns (Some "ok"%string))
           sample_conversation sample_question).
  - reflexivity.
  - exists "internet_trend"%string, DatasetProvider.InternetTrend.
    split; [vm_compute; auto|reflexivity].
Defined.

Lemma chatbot_answers_sample :
  chatbot (fun s => s) (fun s => s) (fun s => s) all_available
          (fun _ _ _ _ _ => "PROMPT"%string)
          (fun _ => CompletionReturns (Some "ok"%string))
          sample_conversation
  = ([ Fetched DatasetProvider.InternetAccess;
       Fetched DatasetProvider.InternetTrend;
       Asked ({| role := "system"; content := Some system_instruction |}
                :: {| role := "user"; content := Some "PROMPT"%string |}
                :: sample_conversation) ],
     Success (JObject [ ("reply", JString "ok");
                        ("topic", JString "internet");
                        ("year", JNumber 2024) ]%string)).
Proof.
  destruct (@chatbot_answers (fun s => s) (fun s => s) (fun s => s) nat
              all_available (fun _ _ _ _ _ => "PROMPT"%string)
              (fun _ => CompletionReturns (Some "ok"%string))
              sample_conversation sample_question (Some "ok"%string))
    as [datasets [_ [Hrun _]]].
  - reflexivity.
  - intros n e _. discriminate.
  - reflexivity.
  - rewrite Hrun. reflexivity.
Defined.

End ChatbotRoute.

(* ================================================================== *)
(** * POST /ai-internet-report: when the completion service is asked *)
(* ================================================================== *)

Module InternetRouteFacts.
Import Json ReportReply Routes.

Section Guard.
Variable OPENAI_API_KEY : option string.
Variable buildPromptFromInternetData :
  option json -> option string -> AiInternet.Aggregate ->
  option AiInternet.TrendSummary -> string.
Variable complete : string -> Completion.





End Guard.

End InternetRouteFacts.

(* ================================================================== *)
(** * The authentication middlewares *)
(* ================================================================== *)

(** [requireAuth] (routes/auth.js) guards every report and chatbot route;
    [authCitizen] (routes/censusStatus.js) guards the census routes.
    Strings are the UTF-8 bytes of the JavaScript string. *)
Module Auth.
Import ChatbotRoute.

(** ** The pattern [/^Bearer (.+)$/i] *)

(** How a character is compared when case is ignored: [a]-[z] count as
    [A]-[Z]; no other character counts as an ASCII one. *)
Definition canonical (c : ascii) : ascii :=
  let n := nat_of_ascii c in
  if ((97 <=? n) && (n <=? 122))%nat then ascii_of_nat (n - 32) else c.

Fixpoint upper (s : string) : string :=
  match s with
  | EmptyString => EmptyString
  | String c rest => String (canonical c) (upper rest)
  end.

(** The text after a leading match of the ASCII [pattern], case
    ignored. *)
Fixpoint matches_ignoring_case (pattern s : string) : option string :=
  match pattern with
  | EmptyString => Some s
  | String p pattern' =>
      match s with
      | EmptyString => None
      | String c s' =>
          if Ascii.eqb (canonical p) (canonical c)
          then matches_ignoring_case pattern' s'
          else None
      end
  end.

(** The characters [.] does not match: LF, CR, U+2028 and U+2029. *)
Definition line_terminators : list string :=
  [ String "010" EmptyString;
    String "013" EmptyString;
    String "226" (String "128" (String "168" EmptyString));
    String "226" (String "128" (String "169" EmptyString)) ].

(** [authHeader.match(/^Bearer (.+)$/i)], as [match[1]] or [None] when
    there is no match: after the scheme and one space, the rest of the
    header, which must not be empty nor hold a line terminator. *)
Definition bearer_token (authHeader : string) : option string :=
  match matches_ignoring_case "Bearer " authHeader with
  | None => None
  | Some rest =>
      if String.eqb rest ""
         || existsb (fun t => includes rest t) line_terminators
      then None
      else Some rest
  end.

(** ** [String.prototype.split(' ')] *)

Fixpoint split_spaces (s : string) : list string :=
  match s with
  | EmptyString => [EmptyString]
  | String c rest =>
      if Ascii.eqb c " " then EmptyString :: split_spaces rest
      else
        match split_spaces rest with
        | h :: t => String c h :: t
        | [] => [String c EmptyString]
        end
  end.

(** What a middleware does: it calls [next] with the payload attached to
    the request, or answers with a status and an error. *)
Inductive Outcome (Payload : Type) : Type :=
| Next (payload : Payload)
| Denied (status : nat) (error : string).
Arguments Denied {Payload}.

Definition invalid_token : string := "Token không hợp lệ hoặc đã hết hạn.".
Definition missing_token : string := "Thiếu token xác thực.".
Definition missing_or_malformed : string :=
  "Thiếu token hoặc định dạng không hợp lệ.".

Section Middlewares.

Variable Payload : Type.

(** [jwt.verify(token, JWT_SECRET)]: the payload, or [None] when it
    throws. *)
Variable verify : string -> option Payload.

(** [req.headers.authorization || ''] *)
Definition header_or_empty (authorization : option string) : string :=
  match authorization with
  | Some h => h
  | None => EmptyString
  end.

(** routes/auth.js: requireAuth *)
Definition requireAuth (authorization : option string) : Outcome Payload :=
  let authHeader := header_or_empty authorization in
  match bearer_token authHeader with
  | None => Denied 401 missing_token
  | Some token =>
      match verify token with
      | Some payload => Next payload
      | None => Denied 401 invalid_token
      end
  end.

(** routes/censusStatus.js: authCitizen *)
Definition authCitizen (authorization : option string) : Outcome Payload :=
  let authHeader := header_or_empty authorization in
  match split_spaces authHeader with
  | type :: token :: _ =>
      if negb (String.eqb type "Bearer") || String.eqb token ""
      then Denied 401 missing_or_malformed
      else
        match verify token with
        | Some decoded => Next decoded
        | None => Denied 401 invalid_token
        end
  | _ => Denied 401 missing_or_malformed
  end.

(** ** Properties *)

Lemma matches_ignoring_case_spec pattern : forall s rest,
  matches_ignoring_case pattern s = Some rest <->
  exists scheme, s = (scheme ++ rest)%string /\ upper scheme = upper pattern.
Proof.
  induction pattern as [|p pattern IH]; intros s rest; cbn [matches_ignoring_case].
  - split.
    + intros [= ->]. exists EmptyString. auto.
    + intros [scheme [-> H]]. destruct scheme; [reflexivity|discriminate].
  - destruct s as [|c s].
    + split; [discriminate|].
      intros [scheme [H1 H2]]. destruct scheme; discriminate.
    + destruct (Ascii.eqb_spec (canonical p) (canonical c)) as [E|E].
      * rewrite IH. split.
        -- intros [scheme [-> H]]. exists (String c scheme). split; auto.
           cbn [upper]. now rewrite H, E.
        -- intros [scheme [H1 H2]]. destruct scheme as [|d scheme];
             [discriminate|].
           cbn [upper] in H2. simpl in H1. exists scheme. split; congruence.
      * split; [discriminate|].
        intros [scheme [H1 H2]]. destruct scheme as [|d scheme];
          [discriminate|].
        cbn [upper] in H2. simpl in H1. exfalso. apply E. congruence.
Qed.

Definition terminator_free (token : string) : Prop :=
  forall t, In t line_terminators -> ~ occurs_in t token.

Lemma terminator_free_spec token :
  existsb (fun t => includes token t) line_terminators = false <->
  terminator_free token.
Proof.
  unfold terminator_free. split.
  - intros H t Ht Hocc. apply includes_occurs in Hocc.
    assert (existsb (fun t => includes token t) line_terminators = true)
      by (apply existsb_exists; eauto).
    congruence.
  - intros H. destruct (existsb _ _) eqn:E; [|reflexivity].
    apply existsb_exists in E. destruct E as [t [Ht Hinc]].
    apply includes_occurs in Hinc. now destruct (H t Ht).
Qed.

Lemma bearer_token_spec authHeader token :
  bearer_token authHeader = Some token <->
  exists scheme,
    authHeader = (scheme ++ token)%string /\
    upper scheme = "BEARER "%string /\
    token <> EmptyString /\
    terminator_free token.
Proof.
  unfold bearer_token. split.
  - destruct (matches_ignoring_case "Bearer " authHeader) as [rest|] eqn:E;
      [|discriminate].
    apply matches_ignoring_case_spec in E. destruct E as [scheme [-> Hs]].
    destruct (String.eqb_spec rest "") as [|Hne]; [discriminate|].
    cbn [orb].
    destruct (existsb _ _) eqn:Hlt; [discriminate|].
    intros [= <-]. exists scheme. repeat split; auto.
    now apply terminator_free_spec.
  - intros [scheme (-> & Hs & Hne & Hfree)].
    assert (E : matches_ignoring_case "Bearer " (scheme ++ token)
                = Some token)
      by (apply matches_ignoring_case_spec; exists scheme; auto).
    rewrite E. apply String.eqb_neq in Hne. rewrite Hne. cbn [orb].
    apply terminator_free_spec in Hfree. now rewrite Hfree.
Qed.

(** X19.  [requireAuth] lets a request through exactly when its
    [Authorization] header is the scheme [Bearer] in any letter case, one
    space, and a token that is not empty, holds no line terminator and is
    verified; the payload it attaches is the verified one.  Every other
    request is answered 401. *)
Theorem requireAuth_only_verified (authorization : option string) :
  (forall user,
     requireAuth authorization = Next user <->
     exists scheme token,
       authorization = Some (scheme ++ token)%string /\
       upper scheme = "BEARER "%string /\
       token <> EmptyString /\
       terminator_free token /\
       verify token = Some user) /\
  (forall status error,
     requireAuth authorization = Denied status error -> status = 401%nat).
Proof.
  split.
  - intros user. unfold requireAuth. split.
    + destruct (bearer_token (header_or_empty authorization)) as [token|] eqn:E;
        [|discriminate].
      apply bearer_token_spec in E.
      destruct E as [scheme (Hh & Hs & Hne & Hfree)].
      destruct (verify token) as [payload|] eqn:Hv; [|discriminate].
      intros [= <-]. exists scheme, token. repeat split; auto.
      destruct authorization as [h|]; simpl in Hh; [now subst|].
      destruct scheme; discriminate.
    + intros [scheme [token (-> & Hs & Hne & Hfree & Hv)]].
      cbn [header_or_empty].
      assert (E : bearer_token (scheme ++ token) = Some token)
        by (apply bearer_token_spec; exists scheme; auto).
      now rewrite E, Hv.
  - intros status error. unfold requireAuth.
    destruct (bearer_token _) as [token|]; [|now intros [= <- _]].
    destruct (verify token); [discriminate|now intros [= <- _]].
Qed.

(** ** [split] *)

Definition space : string := " ".

Lemma append_empty (s : string) : (s ++ EmptyString)%string = s.
Proof. induction s as [|c s IH]; simpl; congruence. Qed.

Lemma occurs_space_cons c s :
  occurs_in space (String c s) <-> c = " "%char \/ occurs_in space s.
Proof.
  unfold occurs_in, space. split.
  - intros [before [after H]]. destruct before as [|d before]; simpl in H.
    + left. congruence.
    + right. exists before, after. simpl. congruence.
  - intros [->|[before [after ->]]].
    + exists EmptyString, s. reflexivity.
    + exists (String c before), after. reflexivity.
Qed.

Lemma split_spaces_cons s : exists h t, split_spaces s = h :: t.
Proof.
  induction s as [|c s [h [t IH]]]; cbn [split_spaces]; eauto.
  destruct (Ascii.eqb c " "); eauto. rewrite IH. eauto.
Qed.

(** The first piece is the text up to the first space, the others the
    pieces of what follows it. *)
Lemma split_spaces_first s : forall h t,
  split_spaces s = h :: t ->
  ~ occurs_in space h /\
  ((t = [] /\ s = h) \/
   exists rest, s = (h ++ space ++ rest)%string /\ t = split_spaces rest).
Proof.
  induction s as [|c s IH]; intros h t; cbn [split_spaces].
  - intros [= <- <-]. split; [|now left].
    intros [before [after H]]. destruct before; discriminate.
  - destruct (Ascii.eqb_spec c " ") as [->|Hc].
    + intros [= <- <-]. split.
      * intros [before [after H]]. destruct before; discriminate.
      * right. exists s. auto.
    + destruct (split_spaces_cons s) as [h' [t' Hs]]. rewrite Hs.
      intros [= <- <-]. destruct (IH h' t' Hs) as [Hfree Hrest]. split.
      * rewrite occurs_space_cons. tauto.
      * destruct Hrest as [[-> ->]|[rest [-> ->]]]; [now left|].
        right. exists rest. auto.
Qed.

Lemma split_spaces_piece h : forall rest,
  ~ occurs_in space h ->
  split_spaces (h ++ space ++ rest) = h :: split_spaces rest.
Proof.
  induction h as [|c h IH]; intros rest Hfree; [reflexivity|].
  rewrite occurs_space_cons in Hfree.
  simpl append. cbn [split_spaces].
  destruct (Ascii.eqb_spec c " ") as [->|Hc]; [tauto|].
  unfold space in IH. simpl append in IH. rewrite IH; tauto.
Qed.

Lemma split_spaces_whole h :
  ~ occurs_in space h -> split_spaces h = [h].
Proof.
  induction h as [|c h IH]; intros Hfree; [reflexivity|].
  rewrite occurs_space_cons in Hfree. cbn [split_spaces].
  destruct (Ascii.eqb_spec c " ") as [->|Hc]; [tauto|].
  rewrite IH; tauto.
Qed.

(** The token [authCitizen] reads: the text between the first and the
    second space of a header that starts with [Bearer] and a space. *)
Lemma authCitizen_token authorization token :
  (exists rest, split_spaces (header_or_empty authorization)
                = "Bearer"%string :: token :: rest) <->
  exists rest,
    header_or_empty authorization = ("Bearer " ++ token ++ rest)%string /\
    ~ occurs_in space token /\
    (rest = EmptyString \/ exists r, rest = (space ++ r)%string).
Proof.
  split.
  - intros [pieces H]. apply split_spaces_first in H.
    destruct H as [_ [[? _]|[rest [Hh Hrest]]]]; [discriminate|].
    symmetry in Hrest. apply split_spaces_first in Hrest.
    destruct Hrest as [Hfree [[_ ->]|[r [-> _]]]].
    + exists EmptyString. rewrite Hh, append_empty. auto.
    + exists (space ++ r)%string. rewrite Hh. split; [reflexivity|].
      split; eauto.
  - intros [rest (Hh & Hfree & Hrest)]. rewrite Hh.
    assert (Hb : ~ occurs_in space "Bearer").
    { intros [before [after H]].
      do 6 (destruct before as [|? before]; [discriminate|];
            simpl in H; injection H as _ H).
      destruct before; discriminate. }
    change ("Bearer " ++ token ++ rest)%string
      with ("Bearer" ++ space ++ (token ++ rest))%string.
    rewrite (split_spaces_piece _ Hb).
    destruct Hrest as [->|[r ->]].
    + rewrite append_empty, (split_spaces_whole Hfree). eauto.
    + rewrite (split_spaces_piece _ Hfree). eauto.
Qed.

(** X20.  [authCitizen] lets a request through exactly when its header
    is [Bearer], written so, one space, and a token without spaces that is
    not empty and is verified; whatever follows a second space is not
    read.  Every other request is answered 401. *)
Theorem authCitizen_only_verified (authorization : option string) :
  (forall decoded,
     authCitizen authorization = Next decoded <->
     exists token rest,
       authorization = Some ("Bearer " ++ token ++ rest)%string /\
       token <> EmptyString /\
       ~ occurs_in space token /\
       (rest = EmptyString \/ exists r, rest = (space ++ r)%string) /\
       verify token = Some decoded) /\
  (forall status error,
     authCitizen authorization = Denied status error -> status = 401%nat).
Proof.
  split.
  - intros decoded. unfold authCitizen. split.
    + destruct (split_spaces (header_or_empty authorization))
        as [|type [|token pieces]] eqn:E; try discriminate.
      destruct (String.eqb_spec type "Bearer") as [->|]; [|discriminate].
      destruct (String.eqb_spec token "") as [|Hne]; [discriminate|].
      cbn [negb orb].
      destruct (verify token) as [payload|] eqn:Hv; [|discriminate].
      intros [= <-].
      destruct (proj1 (authCitizen_token authorization token)
                      (ex_intro _ pieces E))
        as [rest (Hh & Hfree & Hrest)].
      exists token, rest. repeat split; auto.
      destruct authorization as [h|]; simpl in Hh; [now subst|discriminate].
    + intros [token [rest (-> & Hne & Hfree & Hrest & Hv)]].
      destruct (proj2 (authCitizen_token
                         (Some ("Bearer " ++ token ++ rest)%string) token))
        as [pieces E]; [exists rest; auto|].
      rewrite E. apply String.eqb_neq in Hne.
      rewrite Hne, Hv. reflexivity.
  - intros status error. unfold authCitizen.
    destruct (split_spaces _) as [|type [|token pieces]];
      try (now intros [= <- _]).
    destruct (negb _ || _); [now intros [= <- _]|].
    destruct (verify token); [discriminate|now intros [= <- _]].
Qed.

(** X21.  On a header [Bearer], one space and a token that is not empty
    and holds neither a space nor a line terminator, the two middlewares
    do the same, provided they verify alike.  They differ on the scheme:
    written [bearer], [authCitizen] answers 401 whatever the token, while
    [requireAuth] goes on to verify the token. *)
Theorem middlewares_agree :
  (forall token,
     token <> EmptyString ->
     ~ occurs_in space token ->
     terminator_free token ->
     requireAuth (Some ("Bearer " ++ token)%string)
     = authCitizen (Some ("Bearer " ++ token)%string)) /\
  (forall token,
     authCitizen (Some ("bearer " ++ token)%string)
     = Denied 401 missing_or_malformed) /\
  (forall token,
     token <> EmptyString ->
     terminator_free token ->
     requireAuth (Some ("bearer " ++ token)%string)
     = match verify token with
       | Some payload => Next payload
       | None => Denied 401 invalid_token
       end).
Proof.
  split; [|split].
  - intros token Hne Hspace Hfree. unfold requireAuth, authCitizen.
    cbn [header_or_empty].
    assert (E : bearer_token ("Bearer " ++ token) = Some token)
      by (apply bearer_token_spec; exists "Bearer "%string; auto).
    rewrite E.
    destruct (proj2 (authCitizen_token
                       (Some ("Bearer " ++ token ++ "")%string) token))
      as [pieces Hp]; [exists EmptyString; auto|].
    cbn [header_or_empty] in Hp. rewrite append_empty in Hp. rewrite Hp.
    apply String.eqb_neq in Hne. rewrite Hne. reflexivity.
  - intros token. unfold authCitizen. cbn [header_or_empty].
    assert (Hb : ~ occurs_in space "bearer").
    { intros [before [after H]].
      do 6 (destruct before as [|? before]; [discriminate|];
            simpl in H; injection H as _ H).
      destruct before; discriminate. }
    change ("bearer " ++ token)%string
      with ("bearer" ++ space ++ token)%string.
    rewrite (split_spaces_piece _ Hb).
    destruct (split_spaces token) as [|t pieces]; reflexivity.
  - intros token Hne Hfree. unfold requireAuth. cbn [header_or_empty].
    assert (E : bearer_token ("bearer " ++ token) = Some token)
      by (apply bearer_token_spec; exists "bearer "%string; auto).
    now rewrite E.
Qed.

End Middlewares.

(** A verifier that knows one token. *)
Definition knows_good (token : string) : option nat :=
  if String.eqb token "good" then Some 7%nat else None.

Lemma requireAuth_only_verified_sample :
  requireAuth knows_good (Some "BEARER good"%string) = Next 7%nat.
Proof.
  apply (proj1 (requireAuth_only_verified knows_good
                  (Some "BEARER good"%string))).
  exists "BEARER "%string, "good"%string.
  split; [reflexivity|]. split; [reflexivity|]. split; [discriminate|].
  split; [|reflexivity].
  apply terminator_free_spec. reflexivity.
Defined.

Lemma authCitizen_only_verified_sample :
  authCitizen knows_good (Some "Bearer good and more"%string) = Next 7%nat.
Proof.
  apply (proj1 (authCitizen_only_verified knows_good
                  (Some "Bearer good and more"%string))).
  exists "good"%string, " and more"%string.
  split; [reflexivity|]. split; [discriminate|]. split.
  - intros Hocc. apply includes_occurs in Hocc. discriminate.
  - split; [right; exists "and more"%string; reflexivity|reflexivity].
Defined.

Lemma middlewares_agree_sample :
  requireAuth knows_good (Some "Bearer good"%string)
  = authCitizen knows_good (Some "Bearer good"%string).
Proof.
  apply (proj1 (middlewares_agree knows_good) "good"%string).
  - discriminate.
  - intros Hocc. apply includes_occurs in Hocc. discriminate.
  - apply terminator_free_spec. reflexivity.
Defined.

End Auth.

(* ================================================================== *)
(** * routes/reports.js: simpleProjection *)
(* ================================================================== *)

From Stdlib Require Import Qround.

Module Reports.

(** A row of the population trend as the report query yields it: the
    census year and the count of persons, both integers. *)
Record TrendRow : Type := {
  census_year : Z;
  population : Z
}.

Record SimpleProjection : Type := {
  base_year : Z;
  target_year : Z;
  projected_population : Z;
  growth_per_year : Z
}.

(** The comparator [(a, b) => Number(a.census_year) - Number(b.census_year)],
    read as "a goes no later than b". *)
Definition by_census_year (a b : TrendRow) : bool :=
  (census_year a - census_year b <=? 0)%Z.

(** [d || 1] on an integer. *)
Definition or_1 (d : Z) : Z := if (d =? 0)%Z then 1%Z else d.

(** [Math.round]: the nearest integer, halves going up. *)
Definition Math_round (x : Q) : Z := Qfloor (x + (1 # 2)).

(** What an index outside the array reads; [simpleProjection] never reads
    one. *)
Definition no_row : TrendRow := {| census_year := 0; population := 0 |}.

(** [trendRows] is [None] when it is missing; [yearsAhead] is the number
    of years, 5 when the caller gives none. *)
Definition simpleProjection (trendRows : option (list TrendRow))
           (yearsAhead : Z) : option SimpleProjection :=
  match trendRows with
  | None => None
  | Some rows =>
      if (length rows <? 2)%nat then None
      else
        let sorted := JsSort.sort by_census_year rows in
        let last := nth (length sorted - 1) sorted no_row in
        let prev := nth (length sorted - 2) sorted no_row in
        let y1 := census_year prev in
        let y2 := census_year last in
        let p1 := population prev in
        let p2 := population last in
        let deltaYears := or_1 (y2 - y1) in
        let growthPerYear := (inject_Z (p2 - p1) / inject_Z deltaYears)%Q in
        let targetYear := (y2 + yearsAhead)%Z in
        let projected :=
          Math_round (inject_Z p2 + growthPerYear * inject_Z yearsAhead) in
        Some {| base_year := y2;
                target_year := targetYear;
                projected_population := projected;
                growth_per_year := Math_round growthPerYear |}
  end.

(** ** Properties *)

Lemma rows_by_census_year_total a b :
  by_census_year a b = true \/ by_census_year b a = true.
Proof. unfold by_census_year. rewrite !Z.leb_le. lia. Qed.

Lemma rows_by_census_year_trans a b c :
  by_census_year a b = true -> by_census_year b c = true ->
  by_census_year a c = true.
Proof. unfold by_census_year. rewrite !Z.leb_le. lia. Qed.

(** The slope of the line through two rows, in persons a year. *)
Definition slope (prev last : TrendRow) : Q :=
  inject_Z (population last - population prev)
  / inject_Z (or_1 (census_year last - census_year prev)).

(** The line through two rows, [k] years after the later one. *)
Definition line (prev last : TrendRow) (k : Z) : Q :=
  inject_Z (population last) + slope prev last * inject_Z k.

Lemma Math_round_nearest (x : Q) :
  (x - (1 # 2) < inject_Z (Math_round x))%Q /\
  (inject_Z (Math_round x) <= x + (1 # 2))%Q.
Proof.
  unfold Math_round. split.
  - pose proof (Qlt_floor (x + (1 # 2))) as H.
    rewrite inject_Z_plus in H. change (inject_Z 1) with 1%Q in H.
    set (r := inject_Z (Qfloor (x + (1 # 2)))) in *. lra.
  - apply Qfloor_le.
Qed.

Lemma Math_round_exact (z : Z) (x : Q) :
  (x == inject_Z z)%Q -> Math_round x = z.
Proof.
  intros H. unfold Math_round. rewrite H.
  unfold Qfloor, inject_Z, Qplus. simpl.
  replace (z * 2 + 1)%Z with (1 + z * 2)%Z by lia.
  rewrite Z.div_add by lia. reflexivity.
Qed.

(** The last two elements of an array of at least two. *)
Lemma last_two (A : Type) (l : list A) :
  (2 <= length l)%nat -> exists before prev last, l = before ++ [prev; last].
Proof.
  intros Hlen.
  destruct (exists_last (l := l)) as [front [z ->]];
    [destruct l; simpl in Hlen; [lia|discriminate]|].
  rewrite length_app in Hlen. simpl in Hlen.
  destruct (exists_last (l := front)) as [before [y ->]];
    [destruct front; simpl in Hlen; [lia|discriminate]|].
  exists before, y, z. now rewrite <- app_assoc.
Qed.

Lemma nth_last_two (A : Type) (before : list A) (prev last d : A) :
  nth (length (before ++ [prev; last]) - 1) (before ++ [prev; last]) d = last
  /\
  nth (length (before ++ [prev; last]) - 2) (before ++ [prev; last]) d = prev.
Proof.
  rewrite length_app. simpl length. split.
  - rewrite app_nth2 by lia.
    replace (length before + 2 - 1 - length before)%nat with 1%nat by lia.
    reflexivity.
  - rewrite app_nth2 by lia.
    replace (length before + 2 - 2 - length before)%nat with 0%nat by lia.
    reflexivity.
Qed.

(** What [simpleProjection] returns, from the last two rows of the sorted
    array. *)
Lemma simpleProjection_value rows before prev last k :
  (2 <= length rows)%nat ->
  JsSort.sort by_census_year rows = before ++ [prev; last] ->
  simpleProjection (Some rows) k
  = Some {| base_year := census_year last;
            target_year := census_year last + k;
            projected_population := Math_round (line prev last k);
            growth_per_year := Math_round (slope prev last) |}.
Proof.
  intros Hlen Hsort. unfold simpleProjection.
  assert (Hlt : (length rows <? 2)%nat = false) by (apply Nat.ltb_ge; lia).
  rewrite Hlt. cbv zeta. rewrite Hsort.
  destruct (nth_last_two before prev last no_row) as [-> ->].
  reflexivity.
Qed.

Lemma sorted_last_two before prev last :
  StronglySorted (fun a b => by_census_year a b = true)
                 (before ++ [prev; last]) ->
  (census_year prev <= census_year last)%Z.
Proof.
  induction before as [|a before IH]; simpl; intros Hs.
  - inversion Hs as [|? ? _ Ha]; subst.
    inversion Ha as [|? ? Hpl _]; subst.
    unfold by_census_year in Hpl. apply Z.leb_le in Hpl. lia.
  - inversion Hs; subst. auto.
Qed.

(** X22.  [simpleProjection] extrapolates along the line through the two
    latest rows: of at least two rows, with [prev] and [last] the last two
    of their stable sorting by year and [span] the difference of their
    years, taken as 1 when they are the same year, the projected
    population is the integer nearest to
    [population last + (population last - population prev) / span * k],
    and that very number when [span] divides the growth over [k] years;
    the base year is the year of [last] and the target year [k] years
    later. *)
Theorem simpleProjection_extrapolates (rows : list TrendRow) (k : Z) :
  (2 <= length rows)%nat ->
  exists before prev last p,
    JsSort.stable_sorting by_census_year rows (before ++ [prev; last]) /\
    simpleProjection (Some rows) k = Some p /\
    let growth := (population last - population prev)%Z in
    let span := if (census_year last - census_year prev =? 0)%Z then 1%Z
                else (census_year last - census_year prev)%Z in
    let exact :=
      (inject_Z (population last)
       + inject_Z growth / inject_Z span * inject_Z k)%Q in
    (1 <= span)%Z /\
    base_year p = census_year last /\
    target_year p = (census_year last + k)%Z /\
    (exact - (1 # 2) < inject_Z (projected_population p))%Q /\
    (inject_Z (projected_population p) <= exact + (1 # 2))%Q /\
    ((span | growth * k)%Z ->
     projected_population p = (population last + growth * k / span)%Z).
Proof.
  intros Hlen.
  pose proof (@JsSort.sort_stable_sorting _ by_census_year
                rows_by_census_year_total rows_by_census_year_trans rows) as Hst.
  assert (Hlen' : (2 <= length (JsSort.sort by_census_year rows))%nat).
  { destruct Hst as [Hperm _]. now rewrite <- (Permutation_length Hperm). }
  destruct (last_two _ Hlen') as [before [prev [last Hsort]]].
  exists before, prev, last. eexists.
  split; [now rewrite <- Hsort|].
  split; [exact (@simpleProjection_value rows before prev last k Hlen Hsort)|].
  cbv zeta. cbn [base_year target_year projected_population].
  assert (Hyears : (census_year prev <= census_year last)%Z).
  { apply (sorted_last_two before). rewrite <- Hsort. apply Hst. }
  fold (or_1 (census_year last - census_year prev)).
  assert (Hspan : (1 <= or_1 (census_year last - census_year prev))%Z).
  { unfold or_1.
    destruct (Z.eqb_spec (census_year last - census_year prev) 0); lia. }
  split; [exact Hspan|]. split; [reflexivity|]. split; [reflexivity|].
  fold (slope prev last). fold (line prev last k).
  split; [apply Math_round_nearest|]. split; [apply Math_round_nearest|].
  intros [q Hq]. apply Math_round_exact.
  unfold line, slope. rewrite Hq, Z.div_mul by lia.
  set (span := or_1 (census_year last - census_year prev)) in *.
  clearbody span.
  assert (Hq' : (inject_Z (population last - population prev) * inject_Z k
                 == inject_Z q * inject_Z span)%Q)
    by (rewrite <- !inject_Z_mult; now rewrite Hq).
  assert (Hs : ~ (inject_Z span == 0)%Q).
  { intros H. unfold Qeq in H. simpl in H. lia. }
  rewrite inject_Z_plus.
  setoid_replace (inject_Z (population last - population prev)
                  / inject_Z span * inject_Z k)%Q
    with (inject_Z (population last - population prev) * inject_Z k
          / inject_Z span)%Q by (field; exact Hs).
  rewrite Hq'. field. exact Hs.
Qed.

(** A sorted array with the rows of [l], no two of which tie, is the
    sorting of [l]. *)
Lemma sorted_is_sort (l s : list TrendRow) :
  Permutation l s ->
  StronglySorted (fun a b => by_census_year a b = true) s ->
  NoDup (map census_year l) ->
  JsSort.sort by_census_year l = s.
Proof.
  intros Hperm Hs Hnd.
  apply (@JsSort.sorted_ties_unique _ by_census_year rows_by_census_year_total);
    [apply (@JsSort.sort_sorted _ by_census_year rows_by_census_year_total
              rows_by_census_year_trans)|exact Hs|].
  intros x. rewrite (@JsSort.sort_stable _ by_census_year rows_by_census_year_trans).
  pose proof (SortFacts.filter_permutation (JsSort.tie by_census_year x) Hperm)
    as Hf.
  pose proof (SortFacts.distinct_keys_no_tie census_year x l Hnd) as Hone.
  change (fun y => ((census_year x - census_year y <=? 0)%Z
                    && (census_year y - census_year x <=? 0)%Z)%bool)
    with (JsSort.tie by_census_year x) in Hone.
  destruct (filter (JsSort.tie by_census_year x) l) as [|a [|b rest]].
  - apply Permutation_nil in Hf. now rewrite Hf.
  - apply Permutation_length_1_inv in Hf. now rewrite Hf.
  - simpl in Hone. lia.
Qed.

Lemma sorted_app (l1 l2 : list TrendRow) :
  StronglySorted (fun a b => by_census_year a b = true) l1 ->
  StronglySorted (fun a b => by_census_year a b = true) l2 ->
  (forall a b, In a l1 -> In b l2 -> by_census_year a b = true) ->
  StronglySorted (fun a b => by_census_year a b = true) (l1 ++ l2).
Proof.
  induction 1 as [|a l1 Hs IH Ha]; intros H2 Hle; simpl; auto.
  constructor.
  - apply IH; auto. intros x y Hx Hy. apply Hle; simpl; auto.
  - apply Forall_app. split; auto.
    apply Forall_forall. intros y Hy. apply Hle; simpl; auto.
Qed.

(** X23.  Only the two latest censuses count, in whatever order the rows
    come: for rows of pairwise different years that are, in some order,
    [older] rows followed by [prev] and [last], no row of [older] being
    later than [prev] and [prev] not later than [last],
    [simpleProjection] returns what it returns for [prev] and [last]
    alone. *)
Theorem simpleProjection_two_latest
        (rows older : list TrendRow) (prev last : TrendRow) (k : Z) :
  Permutation rows (older ++ [prev; last]) ->
  NoDup (map census_year rows) ->
  Forall (fun r => (census_year r <= census_year prev)%Z) older ->
  (census_year prev <= census_year last)%Z ->
  simpleProjection (Some rows) k = simpleProjection (Some [prev; last]) k.
Proof.
  intros Hperm Hnd Holder Hlast.
  assert (Hpl : by_census_year prev last = true)
    by (unfold by_census_year; apply Z.leb_le; lia).
  assert (Hsort : JsSort.sort by_census_year rows
                  = JsSort.sort by_census_year older ++ [prev; last]).
  { apply sorted_is_sort; auto.
    - rewrite Hperm. apply Permutation_app_tail.
      apply (@JsSort.sort_perm _ by_census_year).
    - apply sorted_app.
      + apply (@JsSort.sort_sorted _ by_census_year rows_by_census_year_total
                 rows_by_census_year_trans).
      + repeat constructor. exact Hpl.
      + intros a b Ha Hb.
        assert (Ha' : In a older).
        { eapply Permutation_in; [|exact Ha].
          apply Permutation_sym, (@JsSort.sort_perm _ by_census_year). }
        rewrite Forall_forall in Holder. specialize (Holder a Ha').
        unfold by_census_year. apply Z.leb_le.
        destruct Hb as [<-|[<-|[]]]; lia. }
  assert (Hlen : (2 <= length rows)%nat).
  { rewrite (Permutation_length Hperm), length_app. simpl. lia. }
  rewrite (@simpleProjection_value rows _ prev last k Hlen Hsort).
  symmetry. apply (@simpleProjection_value [prev; last] [] prev last k).
  - simpl. lia.
  - simpl. now rewrite Hpl.
Qed.

(** Three censuses, the latest first. *)
Definition three_censuses : list TrendRow :=
  [ {| census_year := 2019; population := 960 |};
    {| census_year := 1999; population := 760 |};
    {| census_year := 2009; population := 860 |} ].

Lemma simpleProjection_extrapolates_three_censuses :
  exists before prev last p,
    JsSort.stable_sorting by_census_year three_censuses
                          (before ++ [prev; last]) /\
    simpleProjection (Some three_censuses) 5 = Some p /\
    let growth := (population last - population prev)%Z in
    let span := if (census_year last - census_year prev =? 0)%Z then 1%Z
                else (census_year last - census_year prev)%Z in
    let exact :=
      (inject_Z (population last)
       + inject_Z growth / inject_Z span * inject_Z 5)%Q in
    (1 <= span)%Z /\
    base_year p = census_year last /\
    target_year p = (census_year last + 5)%Z /\
    (exact - (1 # 2) < inject_Z (projected_population p))%Q /\
    (inject_Z (projected_population p) <= exact + (1 # 2))%Q /\
    ((span | growth * 5)%Z ->
     projected_population p = (population last + growth * 5 / span)%Z).
Proof.
  apply (@simpleProjection_extrapolates three_censuses 5).
  simpl. lia.
Defined.

Lemma simpleProjection_two_latest_three_censuses :
  simpleProjection (Some three_censuses) 5
  = simpleProjection
      (Some [ {| census_year := 2009; population := 860 |};
              {| census_year := 2019; population := 960 |} ]) 5.
Proof.
  apply (@simpleProjection_two_latest
           three_censuses
           [ {| census_year := 1999; population := 760 |} ]
           {| census_year := 2009; population := 860 |}
           {| census_year := 2019; population := 960 |} 5).
  - apply (Permutation_cons_append
             [ {| census_year := 1999; population := 760 |};
               {| census_year := 2009; population := 860 |} ]
             {| census_year := 2019; population := 960 |}).
  - simpl. repeat constructor; simpl; intuition discriminate.
  - repeat constructor. simpl. lia.
  - simpl. lia.
Defined.

End Reports.

(* ================================================================== *)
(** * POST /api/census/submit: the transaction *)
(* ================================================================== *)

(** The route (part_000, lines 55-256) validates the request and writes
    the household and its members in one transaction, on a client that
    [pool.connect()] has handed it.  The database is a parameter: it
    answers each statement, or throws, as it sees fit given the statements
    issued before.  The values of a statement are kept as what they are
    computed from: the household or the member of the request, the year,
    the citizen. *)
Module CensusSubmit.
Import Json ReportReply.

(** A JavaScript value that may be [undefined]. *)
Definition Value : Type := option json.

(** The statements the route issues; a statement carries what its
    parameters are computed from. *)
Inductive Statement : Type :=
| Begin
| Rollback
| Commit
| SelectExisting (citizenIdId : Value) (year : json)
| InsertHousehold (householdCode : string) (household : json) (year : json)
| InsertPerson (householdId : Value) (citizen_id_id : Value)
               (member : json) (year : json).

(** What [client.query] resolves with. *)
Record Result : Type := {
  rowCount : nat;
  rows : list Fields
}.

(** What the route does to its client. *)
Inductive Event : Type :=
| Query (statement : Statement)
| Released.

(** [req.body], of which [{ censusYear, household, members }] are read. *)
Record Body : Type := {
  censusYear : Value;
  household : Value;
  members : Value
}.

(** [body] is [None] when [req.body] is [undefined]; [citizenIdId] is the
    one of [req.citizenAuth], which [authCitizen] has set. *)
Record Request : Type := {
  body : option Body;
  citizenIdId : Value
}.

(** ** Running statements *)

(** A computation that issues statements: from the statements issued so
    far to the statements issued at its end and its value, [None] when it
    throws. *)
Definition Run (A : Type) : Type :=
  list Statement -> list Statement * option A.

Definition ret (A : Type) (a : A) : Run A := fun issued => (issued, Some a).

Definition throw (A : Type) : Run A := fun issued => (issued, None).
Arguments throw {A}.

Definition bind (A B : Type) (m : Run A) (f : A -> Run B) : Run B :=
  fun issued =>
    match m issued with
    | (issued', Some a) => f a issued'
    | (issued', None) => (issued', None)
    end.

Notation "x <- m ;; f" := (bind m (fun x => f))
  (at level 61, m at next level, right associativity).

Definition invalid_data : string := "Invalid household or members data".
Definition already_submitted : string := "Bạn đã hoàn thành điều tra năm nay.".
Definition failed_to_save : string := "Failed to save census data".

(** [member.isHead === true], on a member that is not [null]. *)
Definition is_head (member : json) : bool :=
  match Json.member "isHead" member with
  | Some (JBool true) => true
  | _ => false
  end.

(** The statement that inserts a member: the citizen is attached to the
    head of the household only. *)
Definition person_statement (householdId citizenIdId : Value) (year : json)
           (member : json) : Statement :=
  InsertPerson householdId
               (if is_head member then citizenIdId else Some JNull)
               member year.

(** [Array.isArray(members)], and the elements then. *)
Definition array_elements (members : Value) : option (list json) :=
  match members with
  | Some (JArray elements) => Some elements
  | _ => None
  end.

(** The body of the response to a submission that was saved;
    [householdId] is left out of it when it is [undefined]. *)
Definition saved (householdId : Value) (personsInserted : nat) : json :=
  JObject ([ ("status"%string, JString "ok") ]
           ++ match householdId with
              | Some id => [ ("householdId"%string, id) ]
              | None => []
              end
           ++ [ ("personsInserted"%string,
                 JNumber (inject_Z (Z.of_nat personsInserted))) ]).

Section Route.

(** [client.query], given the statements issued before. *)
Variable query : list Statement -> Statement -> option Result.

(** [new Date().getFullYear()] and the household code, made of the time
    and a random number. *)
Variable currentYear : Z.
Variable householdCode : string.

Definition issue (statement : Statement) : Run Result :=
  fun issued => (issued ++ [statement], query issued statement).

(** [for (const member of members)]; reading [member.isHead] throws on
    [null]. *)
Fixpoint insert_persons (householdId citizenIdId : Value) (year : json)
         (members : list json) : Run unit :=
  match members with
  | [] => ret tt
  | member :: rest =>
      match member with
      | JNull => throw
      | _ =>
          _ <- issue (person_statement householdId citizenIdId year member) ;;
          insert_persons householdId citizenIdId year rest
      end
  end.

(** The [try] block. *)
Definition try_block (req : Request) : Run Response :=
  match body req with
  | None => throw
  | Some b =>
      let year := value_or (censusYear b) (JNumber (inject_Z currentYear)) in
      match household b with
      | None => ret (Failure 400 invalid_data)
      | Some h =>
          if negb (truthy (Some h)) then ret (Failure 400 invalid_data)
          else
            match array_elements (members b) with
            | None => ret (Failure 400 invalid_data)
            | Some [] => ret (Failure 400 invalid_data)
            | Some ms =>
                _ <- issue Begin ;;
                existing <- issue (SelectExisting (citizenIdId req) year) ;;
                if (0 <? rowCount existing)%nat
                then
                  _ <- issue Rollback ;;
                  ret (Failure 409 already_submitted)
                else
                  hhRes <- issue (InsertHousehold householdCode h year) ;;
                  match rows hhRes with
                  | [] => throw
                  | row :: _ =>
                      let householdId := get "id" row in
                      _ <- insert_persons householdId (citizenIdId req) year
                                          ms ;;
                      _ <- issue Commit ;;
                      ret (Success (saved householdId (length ms)))
                  end
            end
      end
  end.

(** The route: the [try] block, the [catch] that rolls back and answers
    500, and the [finally] that releases the client.  The response is
    [None] when the rollback of the [catch] throws. *)
Definition submit (req : Request) : list Event * option Response :=
  match try_block req [] with
  | (issued, Some response) =>
      (map Query issued ++ [Released], Some response)
  | (issued, None) =>
      match issue Rollback issued with
      | (issued', Some _) =>
          (map Query issued' ++ [Released],
           Some (Failure 500 failed_to_save))
      | (issued', None) => (map Query issued' ++ [Released], None)
      end
  end.

(** ** Properties *)

(** The year the submission is filed under. *)
Definition year_of (b : Body) : json :=
  value_or (censusYear b) (JNumber (inject_Z currentYear)).

(** The loop inserts the members in order and stops at the first that
    cannot be inserted. *)
Lemma insert_persons_run householdId cid year members : forall issued,
  exists k,
    fst (insert_persons householdId cid year members issued)
    = issued ++ map (person_statement householdId cid year)
                    (firstn k members) /\
    (snd (insert_persons householdId cid year members issued) <> None ->
     k = length members).
Proof.
  induction members as [|member rest IH]; intros issued.
  - exists 0%nat. simpl. rewrite app_nil_r. auto.
  - assert (Hnull : exists k,
               fst (throw (A := unit) issued)
               = issued ++ map (person_statement householdId cid year)
                               (firstn k (member :: rest)) /\
               (snd (throw (A := unit) issued) <> None ->
                k = length (member :: rest))).
    { exists 0%nat. simpl. rewrite app_nil_r. split; [reflexivity|].
      intros H. now destruct H. }
    assert (Hstep : exists k,
               fst ((_ <- issue (person_statement householdId cid year member) ;;
                     insert_persons householdId cid year rest) issued)
               = issued ++ map (person_statement householdId cid year)
                               (firstn k (member :: rest)) /\
               (snd ((_ <- issue (person_statement householdId cid year member) ;;
                      insert_persons householdId cid year rest) issued)
                <> None ->
                k = length (member :: rest))).
    { unfold bind, issue.
      destruct (query issued (person_statement householdId cid year member))
        as [r|].
      - destruct (IH (issued ++ [person_statement householdId cid year member]))
          as [k [Hk Hall]].
        exists (S k). cbn [firstn map length]. rewrite Hk, <- app_assoc.
        split; [reflexivity|]. intros H. now rewrite (Hall H).
      - exists 1%nat. cbn [firstn map fst snd]. split; [reflexivity|].
        intros H. now destruct H. }
    destruct member; cbn [insert_persons]; assumption.
Qed.

Lemma insert_persons_all householdId cid year members :
  ~ In JNull members ->
  (forall issued s, query issued s <> None) ->
  forall issued,
    insert_persons householdId cid year members issued
    = (issued ++ map (person_statement householdId cid year) members,
       Some tt).
Proof.
  intros Hnull Hquery.
  induction members as [|member rest IH]; intros issued.
  - simpl. unfold ret. now rewrite app_nil_r.
  - assert (Hstep :
              (_ <- issue (person_statement householdId cid year member) ;;
               insert_persons householdId cid year rest) issued
              = (issued ++ map (person_statement householdId cid year)
                               (member :: rest), Some tt)).
    { unfold bind, issue.
      destruct (query issued (person_statement householdId cid year member))
        as [r|] eqn:E; [|now destruct (Hquery _ _ E)].
      rewrite IH by (intros H; apply Hnull; now right).
      cbn [map]. now rewrite <- app_assoc. }
    destruct member; cbn [insert_persons]; try assumption.
    exfalso. apply Hnull. now left.
Qed.

(** What the route does, case by case. *)
Inductive Path (req : Request) : list Statement -> option Response -> Prop :=
| NoBody :
    body req = None ->
    forall rolled, Path req [Rollback] (if rolled : bool
                                        then Some (Failure 500 failed_to_save)
                                        else None)
| Invalid :
    Path req [] (Some (Failure 400 invalid_data))
| Duplicate b :
    body req = Some b ->
    Path req [Begin; SelectExisting (citizenIdId req) (year_of b); Rollback]
         (Some (Failure 409 already_submitted))
| Failed b rest :
    body req = Some b ->
    forall rolled,
      Path req (Begin :: rest ++ [Rollback])
           (if rolled : bool then Some (Failure 500 failed_to_save) else None)
| Saved b h ms householdId :
    body req = Some b ->
    household b = Some h ->
    array_elements (members b) = Some ms ->
    ms <> [] ->
    Path req ([Begin; SelectExisting (citizenIdId req) (year_of b);
               InsertHousehold householdCode h (year_of b)]
              ++ map (person_statement householdId (citizenIdId req)
                                       (year_of b)) ms
              ++ [Commit])
         (Some (Success (saved householdId (length ms)))).

Lemma caught req issued :
  (forall rolled,
     Path req (issued ++ [Rollback])
          (if rolled : bool then Some (Failure 500 failed_to_save) else None)) ->
  exists stmts outcome,
    match issue Rollback issued with
    | (issued', Some _) =>
        (map Query issued' ++ [Released], Some (Failure 500 failed_to_save))
    | (issued', None) => (map Query issued' ++ [Released], None)
    end = (map Query stmts ++ [Released], outcome) /\
    Path req stmts outcome.
Proof.
  intros H. unfold issue. exists (issued ++ [Rollback]).
  destruct (query issued Rollback).
  - eexists. split; [reflexivity|]. exact (H true).
  - eexists. split; [reflexivity|]. exact (H false).
Qed.

Lemma submit_path req :
  exists stmts outcome,
    submit req = (map Query stmts ++ [Released], outcome) /\
    Path req stmts outcome.
Proof.
  unfold submit, try_block.
  destruct (body req) as [b|] eqn:Hbody.
  2:{ unfold throw. cbv beta iota; apply (@caught req []). intros rolled.
      exact (@NoBody req Hbody rolled). }
  fold (year_of b).
  set (select := SelectExisting (citizenIdId req) (year_of b)).
  destruct (household b) as [h|] eqn:Hh.
  2:{ exists []. eexists. split; [reflexivity|]. apply Invalid. }
  set (insert := InsertHousehold householdCode h (year_of b)).
  destruct (truthy (Some h)) eqn:Htruthy; cbn [negb].
  2:{ exists []. eexists. split; [reflexivity|]. apply Invalid. }
  destruct (array_elements (members b)) as [[|m ms]|] eqn:Hms.
  1,3: exists []; eexists; (split; [reflexivity|]); apply Invalid.
  unfold bind at 1. unfold issue at 1. cbn [app].
  destruct (query [] Begin) as [r0|].
  2:{ cbv beta iota; apply (@caught req [Begin]). intros rolled.
      exact (@Failed req b [] Hbody rolled). }
  unfold bind at 1. unfold issue at 1. cbn [app].
  destruct (query [Begin] select) as [existing|].
  2:{ cbv beta iota; apply (@caught req [Begin; select]). intros rolled.
      exact (@Failed req b [select] Hbody rolled). }
  destruct (0 <? rowCount existing)%nat.
  { unfold bind, issue, ret. cbn [app].
    destruct (query [Begin; select] Rollback).
    - exists [Begin; select; Rollback]. eexists. split; [reflexivity|].
      exact (@Duplicate req b Hbody).
    - cbv beta iota; apply (@caught req [Begin; select; Rollback]). intros rolled.
      exact (@Failed req b [select; Rollback] Hbody rolled). }
  unfold bind at 1. unfold issue at 1. cbn [app].
  destruct (query [Begin; select] insert) as [hhRes|].
  2:{ cbv beta iota; apply (@caught req [Begin; select; insert]). intros rolled.
      exact (@Failed req b [select; insert] Hbody rolled). }
  destruct (rows hhRes) as [|row others].
  { unfold throw. cbv beta iota; apply (@caught req [Begin; select; insert]). intros rolled.
    exact (@Failed req b [select; insert] Hbody rolled). }
  cbv zeta. unfold bind at 1.
  destruct (insert_persons_run (get "id" row) (citizenIdId req) (year_of b)
              (m :: ms) [Begin; select; insert])
    as [k [Htrace Hall]].
  destruct (insert_persons (get "id" row) (citizenIdId req) (year_of b)
                           (m :: ms) [Begin; select; insert])
    as [issued [[]|]];
    cbn [fst snd] in Htrace, Hall; subst issued.
  2:{ cbv beta iota; apply caught. intros rolled.
      exact (@Failed req b
               (select :: insert
                  :: map (person_statement (get "id" row) (citizenIdId req)
                                           (year_of b))
                         (firstn k (m :: ms)))
               Hbody rolled). }
  assert (Hk : k = length (m :: ms)) by (apply Hall; discriminate).
  rewrite Hk, firstn_all.
  unfold bind, issue, ret.
  destruct (query _ Commit).
  - eexists. eexists. split; [reflexivity|].
    rewrite <- app_assoc.
    apply (@Saved req b h (m :: ms) (get "id" row) Hbody Hh Hms).
    discriminate.
  - cbv beta iota; apply caught. intros rolled.
    exact (@Failed req b
             (select :: insert
                :: (map (person_statement (get "id" row) (citizenIdId req)
                                          (year_of b)) (m :: ms)
                    ++ [Commit]))
             Hbody rolled).
Qed.

(** X24.  Whatever the database does, the client is released, last and
    once; the first statement issued is BEGIN, but for the lone ROLLBACK
    of a request without a body; a transaction that was begun is ended,
    the last statement being COMMIT or ROLLBACK; and the last statement
    is COMMIT exactly when the route answers that the data were saved. *)
Theorem client_released_transaction_ended (req : Request) :
  exists issued,
    fst (submit req) = map Query issued ++ [Released] /\
    (issued = [] \/ issued = [Rollback] \/ exists rest, issued = Begin :: rest)
    /\
    (In Begin issued ->
     exists before,
       issued = before ++ [Commit] \/ issued = before ++ [Rollback]) /\
    ((exists before, issued = before ++ [Commit]) <->
     exists answer, snd (submit req) = Some (Success answer)).
Proof.
  destruct (submit_path req) as [stmts [outcome [Hrun Hpath]]].
  exists stmts. rewrite Hrun. cbn [fst snd]. split; [reflexivity|].
  destruct Hpath as [Hb rolled| |b Hb|b rest Hb rolled|b h ms householdId Hb Hh Hms Hne].
  - split; [auto|]. split; [intros [H|[]]; discriminate|].
    split.
    + intros [before H]. destruct before as [|? [|? ?]]; discriminate.
    + intros [answer H]. destruct rolled; discriminate.
  - split; [auto|]. split; [intros []|].
    split.
    + intros [before H]. destruct before; discriminate.
    + intros [answer H]. discriminate.
  - split; [eauto|]. split.
    + intros _. exists [Begin; SelectExisting (citizenIdId req) (year_of b)].
      now right.
    + split.
      * intros [before H].
        change [Begin; SelectExisting (citizenIdId req) (year_of b); Rollback]
          with ([Begin; SelectExisting (citizenIdId req) (year_of b)]
                  ++ [Rollback]) in H.
        apply app_inj_tail in H. destruct H. discriminate.
      * intros [answer H]. discriminate.
  - split; [eauto|]. split.
    + intros _. exists (Begin :: rest). now right.
    + split.
      * intros [before H].
        change (Begin :: rest ++ [Rollback])
          with ((Begin :: rest) ++ [Rollback]) in H.
        apply app_inj_tail in H. destruct H. discriminate.
      * intros [answer H]. destruct rolled; discriminate.
  - split; [simpl; eauto|]. split.
    + intros _. eexists. left. rewrite app_assoc. reflexivity.
    + split; [eauto|]. intros _. eexists. rewrite app_assoc. reflexivity.
Qed.

(** X25.  When the route answers that the data were saved, it has issued,
    in one transaction that it committed, the check for an earlier
    submission, the insertion of the household, and the insertion of
    every member in the order of the request, the citizen being attached
    to the members marked as head only; the answer counts the members. *)
Theorem saved_means_committed (req : Request) (answer : json) :
  snd (submit req) = Some (Success answer) ->
  exists b h ms householdId,
    body req = Some b /\
    household b = Some h /\
    members b = Some (JArray ms) /\
    ms <> [] /\
    fst (submit req)
    = map Query
          ([Begin; SelectExisting (citizenIdId req) (year_of b);
            InsertHousehold householdCode h (year_of b)]
           ++ map (fun member =>
                     InsertPerson householdId
                                  (if is_head member then citizenIdId req
                                   else Some JNull)
                                  member (year_of b)) ms
           ++ [Commit])
      ++ [Released] /\
    answer = saved householdId (length ms).
Proof.
  intros Hsaved.
  destruct (submit_path req) as [stmts [outcome [Hrun Hpath]]].
  rewrite Hrun in Hsaved |- *. cbn [fst snd] in Hsaved |- *. subst outcome.
  inversion Hpath as [Hb rolled Hs Hr| |b Hb|b rest Hb rolled Hs Hr
                      |b h ms householdId Hb Hh Hms Hne Hs Hr];
    try (destruct rolled; discriminate).
  exists b, h, ms, householdId.
  assert (Hmembers : members b = Some (JArray ms)).
  { unfold array_elements in Hms.
    destruct (members b) as [[]|]; congruence. }
  split; [exact Hb|]. split; [exact Hh|]. split; [exact Hmembers|].
  split; [exact Hne|]. split; [now subst stmts|congruence].
Qed.

(** X26.  A submission that is refused writes nothing: answered 400, the
    route has issued no statement at all; answered 409, it has begun a
    transaction, looked for the earlier submission and rolled back.  Its
    other error status is 500. *)
Theorem refused_writes_nothing (req : Request) (status : nat)
        (error : string) :
  snd (submit req) = Some (Failure status error) ->
  (status = 400%nat /\ fst (submit req) = [Released]) \/
  (status = 409%nat /\
   exists year,
     fst (submit req)
     = [Query Begin; Query (SelectExisting (citizenIdId req) year);
        Query Rollback; Released]) \/
  status = 500%nat.
Proof.
  intros Hrefused.
  destruct (submit_path req) as [stmts [outcome [Hrun Hpath]]].
  rewrite Hrun in Hrefused |- *. cbn [fst snd] in Hrefused |- *.
  subst outcome.
  inversion Hpath as [Hb rolled Hs Hr| |b Hb|b rest Hb rolled Hs Hr
                      |b h ms householdId Hb Hh Hms Hne Hs Hr].
  - destruct rolled; [|discriminate]. injection Hr as <- _. auto.
  - left. auto.
  - right. left. split; [reflexivity|]. now exists (year_of b).
  - destruct rolled; [|discriminate]. injection Hr as <- _. auto.
Qed.

(** X27.  A request with a household and members, none of them [null],
    is saved when the database answers every statement, finds no earlier
    submission and returns the row of the household it inserted. *)
Theorem valid_submission_saved (req : Request) (b : Body) (h : json)
        (ms : list json) :
  body req = Some b ->
  household b = Some h ->
  truthy (Some h) = true ->
  members b = Some (JArray ms) ->
  ms <> [] ->
  ~ In JNull ms ->
  (forall issued s, query issued s <> None) ->
  (forall issued c y r,
     query issued (SelectExisting c y) = Some r -> rowCount r = 0%nat) ->
  (forall issued code hh y r,
     query issued (InsertHousehold code hh y) = Some r -> rows r <> []) ->
  exists householdId,
    snd (submit req) = Some (Success (saved householdId (length ms))).
Proof.
  intros Hb Hh Htruthy Hms Hne Hnull Hquery Hnone Hrow.
  unfold submit, try_block. rewrite Hb, Hh, Htruthy, Hms.
  cbn [negb array_elements]. fold (year_of b).
  destruct ms as [|m ms]; [congruence|].
  unfold bind at 1. unfold issue at 1. cbn [app].
  destruct (query [] Begin) as [r0|] eqn:E0; [|now destruct (Hquery _ _ E0)].
  unfold bind at 1. unfold issue at 1. cbn [app].
  destruct (query [Begin] (SelectExisting (citizenIdId req) (year_of b)))
    as [existing|] eqn:E1; [|now destruct (Hquery _ _ E1)].
  rewrite (Hnone _ _ _ _ E1). cbn [Nat.ltb Nat.leb].
  unfold bind at 1. unfold issue at 1. cbn [app].
  destruct (query _ (InsertHousehold householdCode h (year_of b)))
    as [hhRes|] eqn:E2; [|now destruct (Hquery _ _ E2)].
  pose proof (Hrow _ _ _ _ _ E2) as Hrows.
  destruct (rows hhRes) as [|row others]; [congruence|].
  cbv zeta. unfold bind at 1.
  rewrite (@insert_persons_all (get "id" row) (citizenIdId req) (year_of b)
             (m :: ms) Hnull Hquery).
  unfold bind, issue, ret.
  destruct (query _ Commit) as [r3|] eqn:E3; [|now destruct (Hquery _ _ E3)].
  exists (get "id" row). reflexivity.
Qed.

End Route.

(** A database that answers every statement and holds no earlier
    submission, and a household of two, the first member its head. *)
Definition answering (_ : list Statement) (statement : Statement)
  : option Result :=
  match statement with
  | SelectExisting _ _ => Some {| rowCount := 0; rows := [] |}
  | _ => Some {| rowCount := 1; rows := [ [ ("id"%string, JNumber 7) ] ] |}
  end.

Definition two_members : list json :=
  [ JObject [ ("isHead"%string, JBool true) ];
    JObject [ ("fullName"%string, JString "An") ] ].

Definition household_of_two : Request :=
  {| body := Some {| censusYear := Some (JNumber 2024);
                     household :=
                       Some (JObject [ ("provinceCode"%string, JString "01") ]);
                     members := Some (JArray two_members) |};
     citizenIdId := Some (JNumber 3) |}.

Definition no_household : Request :=
  {| body := Some {| censusYear := None; household := None;
                     members := Some (JArray two_members) |};
     citizenIdId := Some (JNumber 3) |}.

Lemma saved_means_committed_household_of_two :
  exists b h ms householdId,
    body household_of_two = Some b /\
    household b = Some h /\
    members b = Some (JArray ms) /\
    ms <> [] /\
    fst (submit answering 2025 "HH-1" household_of_two)
    = map Query
          ([Begin; SelectExisting (citizenIdId household_of_two)
                                  (year_of 2025 b);
            InsertHousehold "HH-1" h (year_of 2025 b)]
           ++ map (fun member =>
                     InsertPerson householdId
                                  (if is_head member
                                   then citizenIdId household_of_two
                                   else Some JNull)
                                  member (year_of 2025 b)) ms
           ++ [Commit])
      ++ [Released] /\
    saved (Some (JNumber 7)) 2 = saved householdId (length ms).
Proof.
  apply (@saved_means_committed answering 2025 "HH-1"%string household_of_two
           (saved (Some (JNumber 7)) 2)).
  reflexivity.
Defined.

Lemma refused_writes_nothing_no_household :
  (400%nat = 400%nat /\
   fst (submit answering 2025 "HH-1" no_household) = [Released]) \/
  (400%nat = 409%nat /\
   exists year,
     fst (submit answering 2025 "HH-1" no_household)
     = [Query Begin; Query (SelectExisting (citizenIdId no_household) year);
        Query Rollback; Released]) \/
  400%nat = 500%nat.
Proof.
  apply (@refused_writes_nothing answering 2025 "HH-1"%string no_household
           400%nat invalid_data).
  reflexivity.
Defined.

Lemma valid_submission_saved_household_of_two :
  exists householdId,
    snd (submit answering 2025 "HH-1" household_of_two)
    = Some (Success (saved householdId (length two_members))).
Proof.
  apply (@valid_submission_saved answering 2025 "HH-1"%string
           household_of_two
           {| censusYear := Some (JNumber 2024);
              household :=
                Some (JObject [ ("provinceCode"%string, JString "01") ]);
              members := Some (JArray two_members) |}
           (JObject [ ("provinceCode"%string, JString "01") ])
           two_members).
  - reflexivity.
  - reflexivity.
  - reflexivity.
  - reflexivity.
  - discriminate.
  - intros [H|[H|[]]]; discriminate.
  - intros issued []; discriminate.
  - intros issued c y r [= <-]. reflexivity.
  - intros issued code hh y r [= <-]. discriminate.
Defined.

End CensusSubmit.
